(** * QuEST, distributed (MPI) environment: qubits_env_mpi.c

  A shallow embedding of the dispatch layer of the distributed
  state-vector simulator, and the properties of it that the design
  document states.

  Layout of the development:
  - [CInt]: the machine integers of the C source ([int], [long long int]);
  - [CDouble]: the [double] values that appear in one assertion;
  - [Precision]: what precision.h fixes (the scalar [REAL], its width, the
    tolerance [REAL_EPS]);
  - the index arithmetic ([chunkIsUpper], [getChunkPairId], ...);
  - the worker monad [M]: a handle, the calls made to the numeric kernels
    and to the transport, and the fatal exit of [QuESTAssert];
  - the gates and the measurement functions;
  - the theorems. *)

From Stdlib Require Import ZArith List Bool Lia String.
From Stdlib Require Import PrimFloat FloatOps SpecFloat Uint63.
Import ListNotations.

Local Open Scope Z_scope.

(** ** Machine integers *)

Module CInt.

(** Two's complement representative of [z] on [w] bits. *)
Definition wrap (w : Z) (z : Z) : Z :=
  (z + 2 ^ (w - 1)) mod 2 ^ w - 2 ^ (w - 1).

(** [int] is 32 bits wide and [long long int] 64 bits wide. *)
Definition to_int (z : Z) : Z := wrap 32 z.
Definition to_llong (z : Z) : Z := wrap 64 z.

(** The expression [1LL << n].  C defines it for [0 <= n <= 62] only;
    outside that range the value written here is the wrapped one. *)
Definition shl1 (n : Z) : Z := to_llong (Z.shiftl 1 n).

(** Truth value of a C condition. *)
Definition of_bool (b : bool) : Z := if b then 1 else 0.
Definition truthy (z : Z) : bool := negb (z =? 0).

End CInt.
Import CInt.

(** [# define DEBUG 0] *)
Definition DEBUG : Z := 0.

(** ** Index arithmetic (lines 137-237 and 639-657 of the source) *)

(** [chunkIsUpper]: 1 when the chunk lies in the upper half of a block of
  the rotated qubit, 0 when it lies in the lower half. *)
Definition chunkIsUpper (chunkId : Z) (chunkSize : Z) (rotQubit : Z) : Z :=
  let sizeHalfBlock := shl1 rotQubit in
  let sizeBlock := to_llong (sizeHalfBlock * 2) in
  let posInBlock := Z.rem (to_llong (chunkId * chunkSize)) sizeBlock in
  of_bool (posInBlock <? sizeHalfBlock).

(** [getChunkPairId]: the chunk holding the other half of the block. *)
Definition getChunkPairId (chunkIsUpper : Z) (chunkId : Z) (chunkSize : Z)
  (rotQubit : Z) : Z :=
  let sizeHalfBlock := shl1 rotQubit in
  let chunksPerHalfBlock := to_int (Z.quot sizeHalfBlock chunkSize) in
  if truthy chunkIsUpper
  then to_int (chunkId + chunksPerHalfBlock)
  else to_int (chunkId - chunksPerHalfBlock).

(** [halfMatrixBlockFitsInChunk]: 1 when a chunk holds whole blocks. *)
Definition halfMatrixBlockFitsInChunk (chunkSize : Z) (rotQubit : Z) : Z :=
  let sizeHalfBlock := shl1 rotQubit in
  if chunkSize >? sizeHalfBlock then 1 else 0.

(** [isChunkToSkipInFindPZero]: the masked chunk id itself is returned, so
  any non-zero value means "skip". *)
Definition isChunkToSkipInFindPZero (chunkId : Z) (chunkSize : Z)
  (measureQubit : Z) : Z :=
  let sizeHalfBlock := shl1 measureQubit in
  let numChunksToSkip := to_int (Z.quot sizeHalfBlock chunkSize) in
  let bitToCheck := Z.land chunkId numChunksToSkip in
  bitToCheck.

(** ** The [double] values of one assertion

    [collapseToOutcome] passes the [int] value of a comparison through
    [fabs] and back into the [int] parameter of [QuESTAssert]; both
    conversions go through a binary64 [double]. *)

Module CDouble.

(** Conversion of an [int] to [double]; exact on 32 bits. *)
Definition of_int (n : Z) : float :=
  if n <? 0
  then PrimFloat.opp (PrimFloat.of_uint63 (Uint63.of_Z (- n)))
  else PrimFloat.of_uint63 (Uint63.of_Z n).

Definition fabs (x : float) : float := PrimFloat.abs x.

(** Conversion of a [double] to [int]: the fractional part is dropped.
    Infinities and NaN have no defined conversion; 0 is written here. *)
Definition to_int (x : float) : Z :=
  match Prim2SF x with
  | S754_finite sign m e =>
      let magnitude :=
        if 0 <=? e then Z.pos m * 2 ^ e else Z.pos m / 2 ^ (- e) in
      CInt.to_int (if sign then - magnitude else magnitude)
  | _ => 0
  end.

End CDouble.

(** ** What precision.h fixes

    precision.h selects the scalar type [REAL], and with it [sizeof(REAL)]
    and the tolerance [REAL_EPS].  The operations are those the source
    applies to [REAL] values. *)

Class Precision : Type := {
  REAL : Type;
  sizeof_REAL : Z;
  REAL_EPS : REAL;
  rzero : REAL;
  rone : REAL;
  radd : REAL -> REAL -> REAL;
  rsub : REAL -> REAL -> REAL;
  rmul : REAL -> REAL -> REAL;
  ropp : REAL -> REAL;
  rgtb : REAL -> REAL -> bool
}.

(** Double precision: [REAL] is a binary64 [double], and the tolerance is
    the [double] nearest to 1e-13. *)
#[export] Instance double_precision : Precision := {|
  REAL := float;
  sizeof_REAL := 8;
  REAL_EPS := 0x1.c25c268497682p-44%float;
  rzero := 0%float;
  rone := 1%float;
  radd := PrimFloat.add;
  rsub := PrimFloat.sub;
  rmul := PrimFloat.mul;
  ropp := PrimFloat.opp;
  rgtb := fun x y => PrimFloat.ltb y x
|}.

(** ** The execution environment (lines 26-44)

    [initQuESTEnv] talks to the MPI runtime only.  The runtime is modelled
    by what the function can observe of it: whether [MPI_Init] has been
    called, and what [MPI_Comm_size], [MPI_Comm_rank] and
    [MPI_Get_processor_name] answer once it has. *)

Module Env.

Record QuESTEnv : Type := { rank : Z; numRanks : Z }.

Record MPIRuntime : Type := {
  initialized : bool;
  comm_size : Z;
  comm_rank : Z;
  processor_name : string
}.

Inductive Output : Type :=
| print_rank_on_host (rank : Z) (hostName : string)
| print_text (text : string).

Definition MPI_Initialized (mpi : MPIRuntime) : Z :=
  of_bool (initialized mpi).

Definition MPI_Init (mpi : MPIRuntime) : MPIRuntime :=
  {| initialized := true;
     comm_size := comm_size mpi;
     comm_rank := comm_rank mpi;
     processor_name := processor_name mpi |}.

(** The state after the call: the runtime, the environment behind the
    pointer [env], and what was printed.  The function has no exit other
    than its return. *)
Definition initQuESTEnv (mpi : MPIRuntime) (env : QuESTEnv)
  : MPIRuntime * QuESTEnv * list Output :=
  let initialized := MPI_Initialized mpi in
  if negb (truthy initialized) then
    let mpi := MPI_Init mpi in
    let numRanks := comm_size mpi in
    let rank := comm_rank mpi in
    let printed :=
      if truthy DEBUG
      then [print_rank_on_host rank (processor_name mpi)]
      else [] in
    (mpi, {| rank := rank; numRanks := numRanks |}, printed)
  else
    (mpi, env,
     [print_text
        "ERROR: Trying to initialize QuESTEnv multiple times. Ignoring\n"]).

End Env.

Definition doubleInitWarning : Env.Output :=
  Env.print_text
    "ERROR: Trying to initialize QuESTEnv multiple times. Ignoring\n".

(** ** Data model (qubits.h) *)

Section Simulator.

Context {prec : Precision}.

Record Complex : Type := { real : REAL; imag : REAL }.

Record ComplexMatrix2 : Type := {
  r0c0 : Complex; r0c1 : Complex;
  r1c0 : Complex; r1c1 : Complex
}.

(** [ComplexArray]: the two parallel arrays of a state vector.  The C
    fields are [real] and [imag] too; they hold pointers, the lists here
    hold what the pointers designate. *)
Record ComplexArray : Type := { reals : list REAL; imags : list REAL }.

Record MultiQubit : Type := {
  stateVec : ComplexArray;
  pairStateVec : ComplexArray;
  numQubits : Z;
  numAmps : Z;
  chunkId : Z;
  numChunks : Z
}.

(** Which array of the handle a [ComplexArray] argument designates. *)
Inductive Buffer : Type := StateVec | PairStateVec.

Inductive Component : Type := RealPart | ImagPart.

(** The address [&buffer.component[offset]]. *)
Record Address : Type := {
  addr_buffer : Buffer;
  addr_component : Component;
  addr_offset : Z
}.

Inductive PrintfArg : Type :=
| ArgInt (value : Z)
| ArgString (value : string)
| ArgErrorMessage (errorCode : Z).

(** ** Calls that leave this file

    The numeric kernels are defined in qubits.c and the transport is MPI.
    A call is recorded with its arguments; the handle, which every kernel
    receives first, is left implicit. *)
Inductive Call : Type :=
| MPI_Sendrecv (sendbuf : Address) (sendcount : Z) (dest : Z) (sendtag : Z)
    (recvbuf : Address) (recvcount : Z) (source : Z) (recvtag : Z)
| MPI_Abort (errorCode : Z)
| printf (format : string) (args : list PrintfArg)
| compactUnitaryLocal (rotQubit : Z) (alpha beta : Complex)
| compactUnitaryDistributed (rotQubit : Z) (rot1 rot2 : Complex)
    (stateVecUp stateVecLo stateVecOut : Buffer)
| unitaryLocal (rotQubit : Z) (u : ComplexMatrix2)
| unitaryDistributed (rotQubit : Z) (rot1 rot2 : Complex)
    (stateVecUp stateVecLo stateVecOut : Buffer)
| controlledCompactUnitaryLocal (rotQubit controlQubit : Z)
    (alpha beta : Complex)
| controlledCompactUnitaryDistributed (rotQubit controlQubit : Z)
    (rot1 rot2 : Complex) (stateVecUp stateVecLo stateVecOut : Buffer)
| controlledUnitaryLocal (rotQubit controlQubit : Z) (u : ComplexMatrix2)
| controlledUnitaryDistributed (rotQubit controlQubit : Z)
    (rot1 rot2 : Complex) (stateVecUp stateVecLo stateVecOut : Buffer)
| multiControlledUnitaryLocal (rotQubit : Z) (mask : Z) (u : ComplexMatrix2)
| multiControlledUnitaryDistributed (rotQubit : Z) (mask : Z)
    (rot1 rot2 : Complex) (stateVecUp stateVecLo stateVecOut : Buffer)
| sigmaXLocal (rotQubit : Z)
| sigmaXDistributed (rotQubit : Z) (stateVecIn stateVecOut : Buffer)
| controlledNotLocal (controlQubit rotQubit : Z)
| controlledNotDistributed (controlQubit rotQubit : Z)
    (stateVecIn stateVecOut : Buffer)
| sigmaYLocal (rotQubit : Z)
| sigmaYDistributed (rotQubit : Z) (stateVecIn stateVecOut : Buffer)
    (updateUpper : Z)
| phaseGateLocal (rotQubit : Z) (type : Z)
| phaseGateDistributed (rotQubit : Z) (type : Z)
| hadamardLocal (rotQubit : Z)
| hadamardDistributed (rotQubit : Z)
    (stateVecUp stateVecLo stateVecOut : Buffer) (updateUpper : Z)
| MPI_Allreduce (sendbuf : REAL)
| collapseToOutcomeLocal (measureQubit : Z) (totalProbability : REAL)
    (outcome : Z)
| collapseToOutcomeDistributedRenorm (measureQubit : Z)
    (totalProbability : REAL)
| collapseToOutcomeDistributedSetZero (measureQubit : Z).

(** What the rest of the repository supplies: the two validators of
    qubits.c, and what a kernel or a transfer writes into the arrays of
    the handle it is given. *)
Class Collaborators : Type := {
  validateAlphaBeta : Complex -> Complex -> Z;
  validateMatrixIsUnitary : ComplexMatrix2 -> Z;
  writes : Call -> MultiQubit -> MultiQubit
}.

Context {collab : Collaborators}.

(** A kernel receives the handle by value: it can write through the two
    array pointers and nothing else. *)
Definition afterCall (c : Call) (multiQubit : MultiQubit) : MultiQubit :=
  {| stateVec := stateVec (writes c multiQubit);
     pairStateVec := pairStateVec (writes c multiQubit);
     numQubits := numQubits multiQubit;
     numAmps := numAmps multiQubit;
     chunkId := chunkId multiQubit;
     numChunks := numChunks multiQubit |}.

(** ** The worker monad *)

(** One worker: its handle and the calls it has made so far. *)
Record Worker : Type := { handle : MultiQubit; trace : list Call }.

(** A function either returns or ends in [MPI_Abort]. *)
Inductive Result (A : Type) : Type :=
| Returned (value : A) (w : Worker)
| Aborted (errorCode : Z) (w : Worker).

Arguments Returned {A} value w.
Arguments Aborted {A} errorCode w.

Definition M (A : Type) : Type := Worker -> Result A.

Definition ret {A : Type} (a : A) : M A := fun w => Returned a w.

Definition bind {A B : Type} (m : M A) (k : A -> M B) : M B :=
  fun w =>
    match m w with
    | Returned a w' => k a w'
    | Aborted code w' => Aborted code w'
    end.

Notation "x <- m ;; k" := (bind m (fun x => k))
  (at level 61, m at next level, right associativity).
Notation "m ;; k" := (bind m (fun _ => k))
  (at level 61, right associativity).

Definition getMultiQubit : M MultiQubit := fun w => Returned (handle w) w.

(** A kernel or a transfer: recorded, and its writes applied. *)
Definition call (c : Call) : M unit :=
  fun w =>
    Returned tt {| handle := afterCall c (handle w);
                   trace := trace w ++ [c] |}.

(** Output, and a reduction, which hands a value over and writes no array:
    recorded only. *)
Definition emit (c : Call) : M unit :=
  fun w => Returned tt {| handle := handle w; trace := trace w ++ [c] |}.

Definition abort (errorCode : Z) : M unit :=
  fun w =>
    Aborted errorCode
      {| handle := handle w; trace := trace w ++ [MPI_Abort errorCode] |}.

Fixpoint forEach (indices : list Z) (body : Z -> M unit) : M unit :=
  match indices with
  | [] => ret tt
  | i :: rest => body i ;; forEach rest body
  end.

(** The values [i] takes in [for (i = 0; i < n; i++)]; [i] stays below
    [n], an [int], so the increment never wraps. *)
Definition upto (n : Z) : list Z := map Z.of_nat (seq 0 (Z.to_nat n)).

(** Runs a function on a worker that has made no call yet. *)
Definition exec {A : Type} (m : M A) (multiQubit : MultiQubit) : Result A :=
  m {| handle := multiQubit; trace := [] |}.

(** ** Error reporting (lines 704-714) *)

Definition exitWithError (errorCode : Z) (func : string) : M unit :=
  emit (printf "!!!\n" []) ;;
  emit (printf "QuEST Error in function %s: %s\n"
          [ArgString func; ArgErrorMessage errorCode]) ;;
  emit (printf "!!!\n" []) ;;
  emit (printf "exiting..\n" []) ;;
  abort errorCode.

Definition QuESTAssert (isValid : Z) (errorCode : Z) (func : string)
  : M unit :=
  if negb (truthy isValid) then exitWithError errorCode func else ret tt.

(** ** Coefficients of the distributed kernels (lines 154-201) *)

(** The two output parameters are returned as a pair. *)
Definition getRotAngle (chunkIsUpper : Z) (alpha beta : Complex)
  : Complex * Complex :=
  if truthy chunkIsUpper
  then (alpha, {| real := ropp (real beta); imag := ropp (imag beta) |})
  else (beta, alpha).

Definition getRotAngleFromUnitaryMatrix (chunkIsUpper : Z)
  (u : ComplexMatrix2) : Complex * Complex :=
  if truthy chunkIsUpper
  then (r0c0 u, r0c1 u)
  else (r1c0 u, r1c1 u).

(** ** Exchange of state vectors (lines 239-269) *)

Definition TAG : Z := 100.

(** Lines 247-251: the largest number of elements of one message. *)
Definition maxMessageCountFor (numAmps : Z) : Z :=
  let maxMessageCount := shl1 29 in
  let maxMessageCount :=
    if sizeof_REAL =? 8 then shl1 28
    else if sizeof_REAL =? 16 then shl1 27
    else maxMessageCount in
  if numAmps <? maxMessageCount then numAmps else maxMessageCount.

(** The two transfers of one iteration; the count parameter of
    [MPI_Sendrecv] is an [int]. *)
Definition sendrecvPair (offset maxMessageCount pairRank : Z) : M unit :=
  call (MPI_Sendrecv
          {| addr_buffer := StateVec; addr_component := RealPart;
             addr_offset := offset |}
          (to_int maxMessageCount) pairRank TAG
          {| addr_buffer := PairStateVec; addr_component := RealPart;
             addr_offset := offset |}
          (to_int maxMessageCount) pairRank TAG) ;;
  call (MPI_Sendrecv
          {| addr_buffer := StateVec; addr_component := ImagPart;
             addr_offset := offset |}
          (to_int maxMessageCount) pairRank TAG
          {| addr_buffer := PairStateVec; addr_component := ImagPart;
             addr_offset := offset |}
          (to_int maxMessageCount) pairRank TAG).

Definition exchangeStateVectors (pairRank : Z) : M unit :=
  multiQubit <- getMultiQubit ;;
  let maxMessageCount := maxMessageCountFor (numAmps multiQubit) in
  let numMessages := to_int (Z.quot (numAmps multiQubit) maxMessageCount) in
  (if truthy DEBUG
   then emit (printf "numMessages %d maxMessageCount %lld\n"
                [ArgInt numMessages; ArgInt maxMessageCount])
   else ret tt) ;;
  forEach (upto numMessages) (fun i =>
    let offset := to_llong (i * maxMessageCount) in
    sendrecvPair offset maxMessageCount pairRank).

(** ** Gates (lines 271-636)

    The handle, the first parameter of every C function, is the one the
    worker holds. *)

Definition compactUnitary (rotQubit : Z) (alpha beta : Complex) : M unit :=
  multiQubit <- getMultiQubit ;;
  QuESTAssert
    (of_bool ((rotQubit >=? 0) && (rotQubit <? numQubits multiQubit)))
    1 "compactUnitary" ;;
  QuESTAssert (validateAlphaBeta alpha beta) 6 "compactUnitary" ;;
  let useLocalDataOnly :=
    halfMatrixBlockFitsInChunk (numAmps multiQubit) rotQubit in
  if truthy useLocalDataOnly then
    call (compactUnitaryLocal rotQubit alpha beta)
  else
    let rankIsUpper :=
      chunkIsUpper (chunkId multiQubit) (numAmps multiQubit) rotQubit in
    let '(rot1, rot2) := getRotAngle rankIsUpper alpha beta in
    let pairRank :=
      getChunkPairId rankIsUpper (chunkId multiQubit) (numAmps multiQubit)
        rotQubit in
    exchangeStateVectors pairRank ;;
    if truthy rankIsUpper then
      call (compactUnitaryDistributed rotQubit rot1 rot2
              StateVec PairStateVec StateVec)
    else
      call (compactUnitaryDistributed rotQubit rot1 rot2
              PairStateVec StateVec StateVec).

Definition unitary (rotQubit : Z) (u : ComplexMatrix2) : M unit :=
  multiQubit <- getMultiQubit ;;
  QuESTAssert
    (of_bool ((rotQubit >=? 0) && (rotQubit <? numQubits multiQubit)))
    1 "unitary" ;;
  QuESTAssert (validateMatrixIsUnitary u) 5 "unitary" ;;
  let useLocalDataOnly :=
    halfMatrixBlockFitsInChunk (numAmps multiQubit) rotQubit in
  if truthy useLocalDataOnly then
    call (unitaryLocal rotQubit u)
  else
    let rankIsUpper :=
      chunkIsUpper (chunkId multiQubit) (numAmps multiQubit) rotQubit in
    let '(rot1, rot2) := getRotAngleFromUnitaryMatrix rankIsUpper u in
    let pairRank :=
      getChunkPairId rankIsUpper (chunkId multiQubit) (numAmps multiQubit)
        rotQubit in
    exchangeStateVectors pairRank ;;
    if truthy rankIsUpper then
      call (unitaryDistributed rotQubit rot1 rot2
              StateVec PairStateVec StateVec)
    else
      call (unitaryDistributed rotQubit rot1 rot2
              PairStateVec StateVec StateVec).

Definition controlledCompactUnitary (rotQubit controlQubit : Z)
  (alpha beta : Complex) : M unit :=
  multiQubit <- getMultiQubit ;;
  QuESTAssert
    (of_bool ((rotQubit >=? 0) && (rotQubit <? numQubits multiQubit)))
    1 "controlledCompactUnitary" ;;
  QuESTAssert
    (of_bool ((controlQubit >=? 0) && (controlQubit <? numQubits multiQubit)))
    2 "controlledCompactUnitary" ;;
  QuESTAssert (of_bool (negb (controlQubit =? rotQubit)))
    3 "controlledCompactUnitary" ;;
  QuESTAssert (validateAlphaBeta alpha beta) 6 "controlledCompactUnitary" ;;
  let useLocalDataOnly :=
    halfMatrixBlockFitsInChunk (numAmps multiQubit) rotQubit in
  if truthy useLocalDataOnly then
    call (controlledCompactUnitaryLocal rotQubit controlQubit alpha beta)
  else
    let rankIsUpper :=
      chunkIsUpper (chunkId multiQubit) (numAmps multiQubit) rotQubit in
    let '(rot1, rot2) := getRotAngle rankIsUpper alpha beta in
    let pairRank :=
      getChunkPairId rankIsUpper (chunkId multiQubit) (numAmps multiQubit)
        rotQubit in
    exchangeStateVectors pairRank ;;
    if truthy rankIsUpper then
      call (controlledCompactUnitaryDistributed rotQubit controlQubit
              rot1 rot2 StateVec PairStateVec StateVec)
    else
      call (controlledCompactUnitaryDistributed rotQubit controlQubit
              rot1 rot2 PairStateVec StateVec StateVec).

Definition controlledUnitary (rotQubit controlQubit : Z)
  (u : ComplexMatrix2) : M unit :=
  multiQubit <- getMultiQubit ;;
  QuESTAssert
    (of_bool ((rotQubit >=? 0) && (rotQubit <? numQubits multiQubit)))
    1 "controlledUnitary" ;;
  QuESTAssert
    (of_bool ((controlQubit >=? 0) && (controlQubit <? numQubits multiQubit)))
    2 "controlledUnitary" ;;
  QuESTAssert (of_bool (negb (controlQubit =? rotQubit)))
    3 "controlledUnitary" ;;
  QuESTAssert (validateMatrixIsUnitary u) 5 "controlledUnitary" ;;
  let useLocalDataOnly :=
    halfMatrixBlockFitsInChunk (numAmps multiQubit) rotQubit in
  if truthy useLocalDataOnly then
    call (controlledUnitaryLocal rotQubit controlQubit u)
  else
    let rankIsUpper :=
      chunkIsUpper (chunkId multiQubit) (numAmps multiQubit) rotQubit in
    let '(rot1, rot2) := getRotAngleFromUnitaryMatrix rankIsUpper u in
    let pairRank :=
      getChunkPairId rankIsUpper (chunkId multiQubit) (numAmps multiQubit)
        rotQubit in
    exchangeStateVectors pairRank ;;
    if truthy rankIsUpper then
      call (controlledUnitaryDistributed rotQubit controlQubit
              rot1 rot2 StateVec PairStateVec StateVec)
    else
      call (controlledUnitaryDistributed rotQubit controlQubit
              rot1 rot2 PairStateVec StateVec StateVec).

(** Lines 446-447: the control qubits folded into a bit mask.  The array
    is read at the indices below [numControlQubits]; the caller supplies
    that many entries. *)
Definition controlMask (controlQubits : list Z) (numControlQubits : Z) : Z :=
  fold_left
    (fun mask i =>
       Z.lor mask (shl1 (nth (Z.to_nat i) controlQubits 0)))
    (upto numControlQubits) 0.

Definition multiControlledUnitary (controlQubits : list Z)
  (numControlQubits : Z) (rotQubit : Z) (u : ComplexMatrix2) : M unit :=
  multiQubit <- getMultiQubit ;;
  QuESTAssert
    (of_bool ((rotQubit >=? 0) && (rotQubit <? numQubits multiQubit)))
    1 "multiControlledUnitary" ;;
  QuESTAssert
    (of_bool ((numControlQubits >=? 0)
              && (numControlQubits <? numQubits multiQubit)))
    4 "multiControlledUnitary" ;;
  QuESTAssert (validateMatrixIsUnitary u) 5 "multiControlledUnitary" ;;
  let mask := controlMask controlQubits numControlQubits in
  QuESTAssert
    (of_bool ((mask >=? 0)
              && (mask <=? to_llong (shl1 (numQubits multiQubit) - 1))))
    2 "multiControlledUnitary" ;;
  QuESTAssert
    (of_bool (negb (Z.land mask (shl1 rotQubit) =? shl1 rotQubit)))
    3 "multiControlledUnitary" ;;
  let useLocalDataOnly :=
    halfMatrixBlockFitsInChunk (numAmps multiQubit) rotQubit in
  if truthy useLocalDataOnly then
    call (multiControlledUnitaryLocal rotQubit mask u)
  else
    let rankIsUpper :=
      chunkIsUpper (chunkId multiQubit) (numAmps multiQubit) rotQubit in
    let '(rot1, rot2) := getRotAngleFromUnitaryMatrix rankIsUpper u in
    let pairRank :=
      getChunkPairId rankIsUpper (chunkId multiQubit) (numAmps multiQubit)
        rotQubit in
    exchangeStateVectors pairRank ;;
    if truthy rankIsUpper then
      call (multiControlledUnitaryDistributed rotQubit mask
              rot1 rot2 StateVec PairStateVec StateVec)
    else
      call (multiControlledUnitaryDistributed rotQubit mask
              rot1 rot2 PairStateVec StateVec StateVec).

Definition sigmaX (rotQubit : Z) : M unit :=
  multiQubit <- getMultiQubit ;;
  QuESTAssert
    (of_bool ((rotQubit >=? 0) && (rotQubit <? numQubits multiQubit)))
    1 "sigmaX" ;;
  let useLocalDataOnly :=
    halfMatrixBlockFitsInChunk (numAmps multiQubit) rotQubit in
  if truthy useLocalDataOnly then
    call (sigmaXLocal rotQubit)
  else
    let rankIsUpper :=
      chunkIsUpper (chunkId multiQubit) (numAmps multiQubit) rotQubit in
    let pairRank :=
      getChunkPairId rankIsUpper (chunkId multiQubit) (numAmps multiQubit)
        rotQubit in
    exchangeStateVectors pairRank ;;
    call (sigmaXDistributed rotQubit PairStateVec StateVec).

Definition controlledNot (controlQubit rotQubit : Z) : M unit :=
  multiQubit <- getMultiQubit ;;
  QuESTAssert
    (of_bool ((rotQubit >=? 0) && (rotQubit <? numQubits multiQubit)))
    1 "controlledNot" ;;
  QuESTAssert
    (of_bool ((controlQubit >=? 0) && (controlQubit <? numQubits multiQubit)))
    2 "controlledNot" ;;
  QuESTAssert (of_bool (negb (controlQubit =? rotQubit)))
    3 "controlledNot" ;;
  let useLocalDataOnly :=
    halfMatrixBlockFitsInChunk (numAmps multiQubit) rotQubit in
  if truthy useLocalDataOnly then
    call (controlledNotLocal controlQubit rotQubit)
  else
    let rankIsUpper :=
      chunkIsUpper (chunkId multiQubit) (numAmps multiQubit) rotQubit in
    let pairRank :=
      getChunkPairId rankIsUpper (chunkId multiQubit) (numAmps multiQubit)
        rotQubit in
    exchangeStateVectors pairRank ;;
    if truthy rankIsUpper then
      call (controlledNotDistributed controlQubit rotQubit
              PairStateVec StateVec)
    else
      call (controlledNotDistributed controlQubit rotQubit
              PairStateVec StateVec).

Definition sigmaY (rotQubit : Z) : M unit :=
  multiQubit <- getMultiQubit ;;
  QuESTAssert
    (of_bool ((rotQubit >=? 0) && (rotQubit <? numQubits multiQubit)))
    1 "sigmaY" ;;
  let useLocalDataOnly :=
    halfMatrixBlockFitsInChunk (numAmps multiQubit) rotQubit in
  if truthy useLocalDataOnly then
    call (sigmaYLocal rotQubit)
  else
    let rankIsUpper :=
      chunkIsUpper (chunkId multiQubit) (numAmps multiQubit) rotQubit in
    let pairRank :=
      getChunkPairId rankIsUpper (chunkId multiQubit) (numAmps multiQubit)
        rotQubit in
    exchangeStateVectors pairRank ;;
    call (sigmaYDistributed rotQubit PairStateVec StateVec rankIsUpper).

Definition phaseGate (rotQubit : Z) (type : Z) : M unit :=
  multiQubit <- getMultiQubit ;;
  QuESTAssert
    (of_bool ((rotQubit >=? 0) && (rotQubit <? numQubits multiQubit)))
    1 "phaseGate" ;;
  let useLocalDataOnly :=
    halfMatrixBlockFitsInChunk (numAmps multiQubit) rotQubit in
  if truthy useLocalDataOnly then
    call (phaseGateLocal rotQubit type)
  else
    let rankIsUpper :=
      chunkIsUpper (chunkId multiQubit) (numAmps multiQubit) rotQubit in
    if negb (truthy rankIsUpper)
    then call (phaseGateDistributed rotQubit type)
    else ret tt.

Definition hadamard (rotQubit : Z) : M unit :=
  multiQubit <- getMultiQubit ;;
  QuESTAssert
    (of_bool ((rotQubit >=? 0) && (rotQubit <? numQubits multiQubit)))
    1 "hadamard" ;;
  let useLocalDataOnly :=
    halfMatrixBlockFitsInChunk (numAmps multiQubit) rotQubit in
  if truthy useLocalDataOnly then
    call (hadamardLocal rotQubit)
  else
    let rankIsUpper :=
      chunkIsUpper (chunkId multiQubit) (numAmps multiQubit) rotQubit in
    let pairRank :=
      getChunkPairId rankIsUpper (chunkId multiQubit) (numAmps multiQubit)
        rotQubit in
    exchangeStateVectors pairRank ;;
    if truthy rankIsUpper then
      call (hadamardDistributed rotQubit
              StateVec PairStateVec StateVec rankIsUpper)
    else
      call (hadamardDistributed rotQubit
              PairStateVec StateVec StateVec rankIsUpper).

(** ** Measurement (lines 659-702) *)

Definition probabilityOfAmp (amp : REAL * REAL) : REAL :=
  radd (rmul (fst amp) (fst amp)) (rmul (snd amp) (snd amp)).

Definition sumProbabilities (amps : list (REAL * REAL)) : REAL :=
  fold_left (fun total amp => radd total (probabilityOfAmp amp)) amps rzero.

(** The amplitudes of the shard, as (real, imaginary) pairs. *)
Definition shardAmps (multiQubit : MultiQubit) : list (REAL * REAL) :=
  firstn (Z.to_nat (numAmps multiQubit))
    (combine (reals (stateVec multiQubit)) (imags (stateVec multiQubit))).

(** The amplitudes of the shard whose index has bit [measureQubit] clear:
    the upper halves of the blocks of that qubit. *)
Definition upperHalfAmps (multiQubit : MultiQubit) (measureQubit : Z)
  : list (REAL * REAL) :=
  map snd
    (filter (fun indexed => negb (Z.testbit (fst indexed) measureQubit))
       (combine (upto (numAmps multiQubit)) (shardAmps multiQubit))).

(** Modelled from the spec: findProbabilityOfZeroLocal is a kernel of
    qubits.c, which is not among the sources.  Section 4.4.5, step 1: "sum
    re^2 + im^2 over all upper-half (outcome-0) amplitudes within this
    shard".  It reads the shard and writes nothing. *)
Definition findProbabilityOfZeroLocal (multiQubit : MultiQubit)
  (measureQubit : Z) : REAL :=
  sumProbabilities (upperHalfAmps multiQubit measureQubit).

(** Modelled from the spec: findProbabilityOfZeroDistributed is a kernel of
    qubits.c, which is not among the sources.  Section 4.4.5, step 2: "sum
    re^2 + im^2 over the whole shard".  It reads the shard and writes
    nothing. *)
Definition findProbabilityOfZeroDistributed (multiQubit : MultiQubit)
  (measureQubit : Z) : REAL :=
  sumProbabilities (shardAmps multiQubit).

(** Lines 663-671 of [findProbabilityOfOutcome]: the value [stateProb]
    that a worker hands to the reduction.  Every worker runs these lines
    on its own handle. *)
Definition stateProbOf (multiQubit : MultiQubit) (measureQubit : Z) : REAL :=
  let skipValuesWithinRank :=
    halfMatrixBlockFitsInChunk (numAmps multiQubit) measureQubit in
  if truthy skipValuesWithinRank then
    findProbabilityOfZeroLocal multiQubit measureQubit
  else if negb (truthy (isChunkToSkipInFindPZero (chunkId multiQubit)
                          (numAmps multiQubit) measureQubit))
  then findProbabilityOfZeroDistributed multiQubit measureQubit
  else rzero.

(** The transport's sum of one value per worker, taken in rank order. *)
Definition MPI_SUM (values : list REAL) : REAL :=
  match values with
  | [] => rzero
  | first :: rest => fold_left radd rest first
  end.

Definition insertAt {A : Type} (position : Z) (x : A) (l : list A) : list A :=
  firstn (Z.to_nat position) l ++ x :: skipn (Z.to_nat position) l.

(** [MPI_Allreduce] with [MPI_SUM] on one [REAL]: the worker of rank
    [rank] contributes [sendbuf], the other workers the values
    [fromPeers], listed in rank order. *)
Definition MPI_Allreduce_SUM (rank : Z) (sendbuf : REAL)
  (fromPeers : list REAL) : REAL :=
  MPI_SUM (insertAt rank sendbuf fromPeers).

(** The other workers of the program, in rank order, as they are when a
    collective call is made. *)
Variable peers : list MultiQubit.

(** Every worker of the program, this one at its own rank. *)
Definition allWorkers (multiQubit : MultiQubit) : list MultiQubit :=
  insertAt (chunkId multiQubit) multiQubit peers.

(** Every worker makes the same call: each peer hands to the reduction
    the value that lines 663-671 compute on its handle. *)
Definition findProbabilityOfOutcome (measureQubit : Z) (outcome : Z)
  : M REAL :=
  multiQubit <- getMultiQubit ;;
  QuESTAssert
    (of_bool ((measureQubit >=? 0)
              && (measureQubit <? numQubits multiQubit)))
    2 "findProbabilityOfOutcome" ;;
  let stateProb := stateProbOf multiQubit measureQubit in
  emit (MPI_Allreduce stateProb) ;;
  let totalStateProb :=
    MPI_Allreduce_SUM (chunkId multiQubit) stateProb
      (map (fun peer => stateProbOf peer measureQubit) peers) in
  let totalStateProb :=
    if outcome =? 1 then rsub rone totalStateProb else totalStateProb in
  ret totalStateProb.

Definition collapseToOutcome (measureQubit : Z) (outcome : Z) : M REAL :=
  multiQubit <- getMultiQubit ;;
  QuESTAssert
    (of_bool ((measureQubit >=? 0)
              && (measureQubit <? numQubits multiQubit)))
    2 "collapseToOutcome" ;;
  totalStateProb <- findProbabilityOfOutcome measureQubit outcome ;;
  QuESTAssert
    (CDouble.to_int
       (CDouble.fabs
          (CDouble.of_int (of_bool (rgtb totalStateProb REAL_EPS)))))
    8 "collapseToOutcome" ;;
  let skipValuesWithinRank :=
    halfMatrixBlockFitsInChunk (numAmps multiQubit) measureQubit in
  (if truthy skipValuesWithinRank then
     call (collapseToOutcomeLocal measureQubit totalStateProb outcome)
   else if negb (truthy (isChunkToSkipInFindPZero (chunkId multiQubit)
                           (numAmps multiQubit) measureQubit))
   then
     if outcome =? 0
     then call (collapseToOutcomeDistributedRenorm measureQubit
                  totalStateProb)
     else call (collapseToOutcomeDistributedSetZero measureQubit)
   else
     if outcome =? 1
     then call (collapseToOutcomeDistributedRenorm measureQubit
                  totalStateProb)
     else call (collapseToOutcomeDistributedSetZero measureQubit)) ;;
  ret totalStateProb.


(** ** Descriptions of what a function has done

    The vocabulary of the properties below: the calls a function makes,
    written as lists, and the outcomes the design document speaks of. *)

(** The worker after the calls [cs], made in order. *)
Definition afterCalls (cs : list Call) (w : Worker) : Worker :=
  {| handle := fold_left (fun h c => afterCall c h) cs (handle w);
     trace := trace w ++ cs |}.

(** What [exitWithError] leaves in the trace. *)
Definition errorReport (errorCode : Z) (func : string) : list Call :=
  [ printf "!!!\n" [];
    printf "QuEST Error in function %s: %s\n"
      [ArgString func; ArgErrorMessage errorCode];
    printf "!!!\n" [];
    printf "exiting..\n" [];
    MPI_Abort errorCode ].

Definition afterError (errorCode : Z) (func : string) (w : Worker)
  : Worker :=
  {| handle := handle w; trace := trace w ++ errorReport errorCode func |}.

(** One transfer of the exchange: [count] elements of one component, from
    the state vector at [offset] to the pair buffer of [pairRank] at the
    same offset, and back. *)
Definition transfer (component : Component) (offset count pairRank tag : Z)
  : Call :=
  MPI_Sendrecv
    {| addr_buffer := StateVec; addr_component := component;
       addr_offset := offset |}
    count pairRank tag
    {| addr_buffer := PairStateVec; addr_component := component;
       addr_offset := offset |}
    count pairRank tag.

(** The calls of [exchangeStateVectors], as the loop makes them. *)
Definition exchangeCalls (numAmps pairRank : Z) : list Call :=
  let maxMessageCount := maxMessageCountFor numAmps in
  flat_map
    (fun i =>
       [ transfer RealPart (to_llong (i * maxMessageCount))
           (to_int maxMessageCount) pairRank TAG;
         transfer ImagPart (to_llong (i * maxMessageCount))
           (to_int maxMessageCount) pairRank TAG ])
    (upto (to_int (Z.quot numAmps maxMessageCount))).

(** The cap on the size of a message, before the clamp. *)
Definition messageCap : Z :=
  if sizeof_REAL =? 8 then 2 ^ 28
  else if sizeof_REAL =? 16 then 2 ^ 27
  else 2 ^ 29.

(** A worker that has made no call yet. *)
Definition fresh (multiQubit : MultiQubit) : Worker :=
  {| handle := multiQubit; trace := [] |}.

(** The calls of the dispatch template: the local kernel alone when the
    shard holds whole blocks, otherwise the exchange with the pair rank
    followed by the distributed kernel, which may depend on the half the
    shard lies in. *)
Definition dispatchCalls (multiQubit : MultiQubit) (rotQubit : Z)
  (localKernel : Call) (distributedKernel : Z -> Call) : list Call :=
  if truthy (halfMatrixBlockFitsInChunk (numAmps multiQubit) rotQubit)
  then [localKernel]
  else
    let rankIsUpper :=
      chunkIsUpper (chunkId multiQubit) (numAmps multiQubit) rotQubit in
    exchangeCalls (numAmps multiQubit)
      (getChunkPairId rankIsUpper (chunkId multiQubit)
         (numAmps multiQubit) rotQubit)
    ++ [distributedKernel rankIsUpper].

(** The buffers handed to a kernel that takes an upper and a lower half. *)
Definition upperBuffer (rankIsUpper : Z) : Buffer :=
  if truthy rankIsUpper then StateVec else PairStateVec.

Definition lowerBuffer (rankIsUpper : Z) : Buffer :=
  if truthy rankIsUpper then PairStateVec else StateVec.

Definition inRange (qubit : Z) (multiQubit : MultiQubit) : bool :=
  (qubit >=? 0) && (qubit <? numQubits multiQubit).

(** The error code of the first check that fails, in the order the
    assertions are made. *)
Fixpoint firstFailure (checks : list (bool * Z)) : option Z :=
  match checks with
  | [] => None
  | (true, _) :: rest => firstFailure rest
  | (false, errorCode) :: _ => Some errorCode
  end.

(** The outcome of a function that makes the checks and then the calls. *)
Definition outcomeOf (checks : list (bool * Z)) (func : string)
  (calls : list Call) (multiQubit : MultiQubit) : Result unit :=
  match firstFailure checks with
  | Some errorCode =>
      Aborted errorCode (afterError errorCode func (fresh multiQubit))
  | None => Returned tt (afterCalls calls (fresh multiQubit))
  end.

Definition maskInRange (mask : Z) (multiQubit : MultiQubit) : bool :=
  (mask >=? 0) && (mask <=? to_llong (shl1 (numQubits multiQubit) - 1)).

Definition maskAvoids (mask : Z) (rotQubit : Z) : bool :=
  negb (Z.land mask (shl1 rotQubit) =? shl1 rotQubit).

(** The calls of [phaseGate]: it has no exchange, and on a shard in the
    upper half no call at all. *)
Definition phaseGateCalls (multiQubit : MultiQubit) (rotQubit type : Z)
  : list Call :=
  if truthy (halfMatrixBlockFitsInChunk (numAmps multiQubit) rotQubit)
  then [phaseGateLocal rotQubit type]
  else if negb (truthy (chunkIsUpper (chunkId multiQubit)
                          (numAmps multiQubit) rotQubit))
  then [phaseGateDistributed rotQubit type]
  else [].

(** The pair rank of a shard, for the dispatch of a gate on [rotQubit]. *)
Definition pairRankOf (multiQubit : MultiQubit) (rotQubit : Z) : Z :=
  getChunkPairId
    (chunkIsUpper (chunkId multiQubit) (numAmps multiQubit) rotQubit)
    (chunkId multiQubit) (numAmps multiQubit) rotQubit.

(** The coefficients the design gives a shard for the compact form. *)
Definition compactCoefficients (rankIsUpper : Z) (alpha beta : Complex)
  : Complex * Complex :=
  if rankIsUpper =? 0
  then (beta, alpha)
  else (alpha, {| real := ropp (real beta); imag := ropp (imag beta) |}).

(** The coefficients the design gives a shard for the matrix form. *)
Definition matrixCoefficients (rankIsUpper : Z) (u : ComplexMatrix2)
  : Complex * Complex :=
  if rankIsUpper =? 0 then (r1c0 u, r1c1 u) else (r0c0 u, r0c1 u).

Definition isExchange (c : Call) : bool :=
  match c with
  | MPI_Sendrecv _ _ _ _ _ _ _ _ => true
  | _ => false
  end.

(** The worker as a function leaves it, returned or aborted. *)
Definition finalWorker {A : Type} (r : Result A) : Worker :=
  match r with
  | Returned _ w => w
  | Aborted _ w => w
  end.

Inductive Gate : Type :=
| CompactUnitary (alpha beta : Complex)
| Unitary (u : ComplexMatrix2)
| ControlledCompactUnitary (controlQubit : Z) (alpha beta : Complex)
| ControlledUnitary (controlQubit : Z) (u : ComplexMatrix2)
| MultiControlledUnitary (controlQubits : list Z) (numControlQubits : Z)
    (u : ComplexMatrix2)
| SigmaX
| SigmaY
| ControlledNot (controlQubit : Z)
| PhaseGate (type : Z)
| Hadamard.

(** The call of the gate on target qubit [rotQubit]. *)
Definition applyGate (g : Gate) (rotQubit : Z) : M unit :=
  match g with
  | CompactUnitary alpha beta => compactUnitary rotQubit alpha beta
  | Unitary u => unitary rotQubit u
  | ControlledCompactUnitary controlQubit alpha beta =>
      controlledCompactUnitary rotQubit controlQubit alpha beta
  | ControlledUnitary controlQubit u =>
      controlledUnitary rotQubit controlQubit u
  | MultiControlledUnitary controlQubits numControlQubits u =>
      multiControlledUnitary controlQubits numControlQubits rotQubit u
  | SigmaX => sigmaX rotQubit
  | SigmaY => sigmaY rotQubit
  | ControlledNot controlQubit => controlledNot controlQubit rotQubit
  | PhaseGate type => phaseGate rotQubit type
  | Hadamard => hadamard rotQubit
  end.

Definition gateName (g : Gate) : string :=
  match g with
  | CompactUnitary _ _ => "compactUnitary"
  | Unitary _ => "unitary"
  | ControlledCompactUnitary _ _ _ => "controlledCompactUnitary"
  | ControlledUnitary _ _ => "controlledUnitary"
  | MultiControlledUnitary _ _ _ => "multiControlledUnitary"
  | SigmaX => "sigmaX"
  | SigmaY => "sigmaY"
  | ControlledNot _ => "controlledNot"
  | PhaseGate _ => "phaseGate"
  | Hadamard => "hadamard"
  end.

Inductive KernelKind : Type := LocalKernel | DistributedKernel.

(** The gate a kernel belongs to, its kind and the qubit it is called on;
    [None] for a call that is no gate kernel. *)
Definition kernelOf (c : Call) : option (string * KernelKind * Z) :=
  match c with
  | compactUnitaryLocal q _ _ => Some ("compactUnitary"%string, LocalKernel, q)
  | compactUnitaryDistributed q _ _ _ _ _ =>
      Some ("compactUnitary"%string, DistributedKernel, q)
  | unitaryLocal q _ => Some ("unitary"%string, LocalKernel, q)
  | unitaryDistributed q _ _ _ _ _ =>
      Some ("unitary"%string, DistributedKernel, q)
  | controlledCompactUnitaryLocal q _ _ _ =>
      Some ("controlledCompactUnitary"%string, LocalKernel, q)
  | controlledCompactUnitaryDistributed q _ _ _ _ _ _ =>
      Some ("controlledCompactUnitary"%string, DistributedKernel, q)
  | controlledUnitaryLocal q _ _ =>
      Some ("controlledUnitary"%string, LocalKernel, q)
  | controlledUnitaryDistributed q _ _ _ _ _ _ =>
      Some ("controlledUnitary"%string, DistributedKernel, q)
  | multiControlledUnitaryLocal q _ _ =>
      Some ("multiControlledUnitary"%string, LocalKernel, q)
  | multiControlledUnitaryDistributed q _ _ _ _ _ _ =>
      Some ("multiControlledUnitary"%string, DistributedKernel, q)
  | sigmaXLocal q => Some ("sigmaX"%string, LocalKernel, q)
  | sigmaXDistributed q _ _ => Some ("sigmaX"%string, DistributedKernel, q)
  | controlledNotLocal _ q => Some ("controlledNot"%string, LocalKernel, q)
  | controlledNotDistributed _ q _ _ =>
      Some ("controlledNot"%string, DistributedKernel, q)
  | sigmaYLocal q => Some ("sigmaY"%string, LocalKernel, q)
  | sigmaYDistributed q _ _ _ => Some ("sigmaY"%string, DistributedKernel, q)
  | phaseGateLocal q _ => Some ("phaseGate"%string, LocalKernel, q)
  | phaseGateDistributed q _ => Some ("phaseGate"%string, DistributedKernel, q)
  | hadamardLocal q => Some ("hadamard"%string, LocalKernel, q)
  | hadamardDistributed q _ _ _ _ => Some ("hadamard"%string, DistributedKernel, q)
  | _ => None
  end.

(** The local kernel of the gate has been invoked. *)
Definition invokesLocalKernel (g : Gate) (rotQubit : Z) (w' : Worker)
  : Prop :=
  exists k, In k (trace w') /\
            kernelOf k = Some (gateName g, LocalKernel, rotQubit).

(** Local path: the local kernel of the gate, and no other call. *)
Definition takesLocalPath (g : Gate) (rotQubit : Z) (w' : Worker) : Prop :=
  exists k, trace w' = [k] /\
            kernelOf k = Some (gateName g, LocalKernel, rotQubit).

(** Distributed path of the template: the exchange with the pair rank,
    then the distributed kernel of the gate. *)
Definition takesExchangePath (g : Gate) (rotQubit : Z)
  (multiQubit : MultiQubit) (w' : Worker) : Prop :=
  exists k,
    trace w' =
      exchangeCalls (numAmps multiQubit) (pairRankOf multiQubit rotQubit)
      ++ [k] /\
    kernelOf k = Some (gateName g, DistributedKernel, rotQubit).

(** The dispatch rule as the design states it for every gate. *)
Definition dispatchRule (g : Gate) (rotQubit : Z) (multiQubit : MultiQubit)
  : Prop :=
  forall w',
    exec (applyGate g rotQubit) multiQubit = Returned tt w' ->
    (invokesLocalKernel g rotQubit w' <->
     numAmps multiQubit > 2 ^ rotQubit) /\
    (numAmps multiQubit = 2 ^ (rotQubit + 1) ->
     takesLocalPath g rotQubit w') /\
    (~ numAmps multiQubit > 2 ^ rotQubit ->
     takesExchangePath g rotQubit multiQubit w').

(** The worker once the reduction of [findProbabilityOfOutcome] is done:
    the handle is untouched. *)
Definition afterReduction (multiQubit : MultiQubit) (measureQubit : Z)
  : Worker :=
  {| handle := multiQubit;
     trace := [MPI_Allreduce (stateProbOf multiQubit measureQubit)] |}.

(** The probability of outcome 0, reduced over every worker. *)
Definition probabilityOfZero (multiQubit : MultiQubit) (measureQubit : Z)
  : REAL :=
  MPI_SUM
    (map (fun w => stateProbOf w measureQubit) (allWorkers multiQubit)).

(** The kernel [collapseToOutcome] calls once the probability is known. *)
Definition collapseKernel (multiQubit : MultiQubit)
  (measureQubit outcome : Z) (totalStateProb : REAL) : Call :=
  if truthy (halfMatrixBlockFitsInChunk (numAmps multiQubit) measureQubit)
  then collapseToOutcomeLocal measureQubit totalStateProb outcome
  else if negb (truthy (isChunkToSkipInFindPZero (chunkId multiQubit)
                          (numAmps multiQubit) measureQubit))
  then
    if outcome =? 0
    then collapseToOutcomeDistributedRenorm measureQubit totalStateProb
    else collapseToOutcomeDistributedSetZero measureQubit
  else
    if outcome =? 1
    then collapseToOutcomeDistributedRenorm measureQubit totalStateProb
    else collapseToOutcomeDistributedSetZero measureQubit.

(** The calls that can write the arrays of the handle: the kernels and
    the transfers.  Output, the abort and the reduction cannot. *)
Definition writesArrays (c : Call) : bool :=
  match c with
  | printf _ _ | MPI_Abort _ | MPI_Allreduce _ => false
  | _ => true
  end.

End Simulator.

Arguments Returned {prec A} value w.
Arguments Aborted {prec A} errorCode w.

(** ** Amplitude accessors and total probability (lines 84-135) *)

Section Collectives.

Context {prec : Precision}.

(** The other workers of the program, in rank order. *)
Variable peers : list MultiQubit.

Definition getChunkIdFromIndex (multiQubit : MultiQubit) (index : Z) : Z :=
  to_int (Z.quot index (numAmps multiQubit)).

(** The element [a[i]]; C gives no value to a read outside the array. *)
Definition arrayAt (a : list REAL) (i : Z) : option REAL :=
  if i <? 0 then None else nth_error a (Z.to_nat i).

(** The local [el] of [getRealAmpEl] and [getImagAmpEl] when the
    broadcast starts: assigned on the worker that owns the index, without
    a value on the others.  [select] is the array read, [real] or
    [imag]. *)
Definition elBeforeBcast (select : ComplexArray -> list REAL)
  (multiQubit : MultiQubit) (index : Z) : option REAL :=
  let chunkId' := getChunkIdFromIndex multiQubit index in
  if chunkId multiQubit =? chunkId' then
    arrayAt (select (stateVec multiQubit))
      (to_llong (index - to_llong (chunkId' * numAmps multiQubit)))
  else None.

(** [MPI_Bcast] of one value from [root]: every worker ends with what the
    buffer of rank [root] held, if there is such a rank. *)
Definition MPI_Bcast (root : Z) (buffers : list (option REAL))
  : option REAL :=
  if root <? 0 then None
  else match nth_error buffers (Z.to_nat root) with
       | Some buffer => buffer
       | None => None
       end.

(** The body the two accessors share; every worker makes the same call. *)
Definition getAmpEl (select : ComplexArray -> list REAL)
  (multiQubit : MultiQubit) (index : Z) : option REAL :=
  let chunkId' := getChunkIdFromIndex multiQubit index in
  let el := elBeforeBcast select multiQubit index in
  MPI_Bcast chunkId'
    (insertAt (chunkId multiQubit) el
       (map (fun peer => elBeforeBcast select peer index) peers)).

Definition getRealAmpEl (multiQubit : MultiQubit) (index : Z)
  : option REAL :=
  getAmpEl reals multiQubit index.

Definition getImagAmpEl (multiQubit : MultiQubit) (index : Z)
  : option REAL :=
  getAmpEl imags multiQubit index.

(** One compensated addition of [calcTotalProbability]:
    [y = term - c; t = pTotal + y; c = (t - pTotal) - y; pTotal = t]. *)
Definition kahanAdd (state : REAL * REAL) (term : REAL) : REAL * REAL :=
  let '(pTotal, c) := state in
  let y := rsub term c in
  let t := radd pTotal y in
  let c := rsub (rsub t pTotal) y in
  (t, c).

(** Lines 112-129: the loop over the amplitudes of this rank.  A read
    beyond an array has no value in C; [rzero] is written here. *)
Definition rankTotalProbability (multiQubit : MultiQubit) : REAL :=
  let numAmpsPerRank := numAmps multiQubit in
  fst
    (fold_left
       (fun state index =>
          let re :=
            nth (Z.to_nat index) (reals (stateVec multiQubit)) rzero in
          let im :=
            nth (Z.to_nat index) (imags (stateVec multiQubit)) rzero in
          kahanAdd (kahanAdd state (rmul re re)) (rmul im im))
       (upto numAmpsPerRank) (rzero, rzero)).

Definition calcTotalProbability (multiQubit : MultiQubit) : REAL :=
  let pTotal := rankTotalProbability multiQubit in
  if numChunks multiQubit >? 1
  then MPI_Allreduce_SUM (chunkId multiQubit) pTotal
         (map rankTotalProbability peers)
  else pTotal.

(** The sum of [re^2 + im^2] taken term by term, without compensation. *)
Definition plainTotalProbability (amps : list (REAL * REAL)) : REAL :=
  fold_left
    (fun pTotal amp =>
       radd (radd pTotal (rmul (fst amp) (fst amp)))
            (rmul (snd amp) (snd amp)))
    amps rzero.

(** A state vector cut into shards of [S] amplitudes: the worker of rank
    [r] holds chunk [r], and its arrays have [S] elements. *)
Definition shardsOf (S : Z) (workers : list MultiQubit) : Prop :=
  forall r w, nth_error workers r = Some w ->
    chunkId w = Z.of_nat r /\ numAmps w = S /\
    List.length (reals (stateVec w)) = Z.to_nat S /\
    List.length (imags (stateVec w)) = Z.to_nat S.

(** The whole state vector, shard after shard. *)
Definition globalArray (select : ComplexArray -> list REAL)
  (workers : list MultiQubit) : list REAL :=
  flat_map (fun w => select (stateVec w)) workers.

End Collectives.

(** ** Roles of the buffers *)

Section BufferRoles.

Context {prec : Precision}.

Definition isStateVec (b : Buffer) : bool :=
  match b with StateVec => true | PairStateVec => false end.

Definition isPairStateVec (b : Buffer) : bool :=
  match b with StateVec => false | PairStateVec => true end.

(** An upper and a lower half are the two arrays, in either order, and
    the output is the state vector. *)
Definition halvesThenOwn (up lo out : Buffer) : bool :=
  negb (Bool.eqb (isStateVec up) (isStateVec lo)) && isStateVec out.

(** A call uses the buffers as the dispatch layer means them: a transfer
    sends from the state vector and receives into the pair buffer, at the
    same place; a kernel reads the pair buffer and writes the state
    vector only. *)
Definition buffersAsDesigned (c : Call) : bool :=
  match c with
  | MPI_Sendrecv sendbuf _ _ _ recvbuf _ _ _ =>
      isStateVec (addr_buffer sendbuf)
      && isPairStateVec (addr_buffer recvbuf)
      && (addr_offset sendbuf =? addr_offset recvbuf)
  | compactUnitaryDistributed _ _ _ up lo out
  | unitaryDistributed _ _ _ up lo out
  | controlledCompactUnitaryDistributed _ _ _ _ up lo out
  | controlledUnitaryDistributed _ _ _ _ up lo out
  | multiControlledUnitaryDistributed _ _ _ _ up lo out
  | hadamardDistributed _ up lo out _ => halvesThenOwn up lo out
  | sigmaXDistributed _ input out
  | controlledNotDistributed _ _ input out
  | sigmaYDistributed _ input out _ =>
      isPairStateVec input && isStateVec out
  | _ => true
  end.

End BufferRoles.

(** ** Closing the environment (lines 56-61) *)

Module Shutdown.

(** What [closeQuESTEnv] can observe of the MPI runtime. *)
Record Transport : Type := { finalized : bool }.

Definition MPI_Finalized (transport : Transport) : Z :=
  of_bool (finalized transport).

Definition MPI_Finalize (transport : Transport) : Transport :=
  {| finalized := true |}.

Definition closeQuESTEnv (transport : Transport) (env : Env.QuESTEnv)
  : Transport * list Env.Output :=
  let finalized := MPI_Finalized transport in
  if negb (truthy finalized) then (MPI_Finalize transport, [])
  else
    (transport,
     [Env.print_text
        "ERROR: Trying to close QuESTEnv multiple times. Ignoring\n"]).

End Shutdown.

(** Exact arithmetic on integers, where nothing is rounded. *)
Definition integer_precision : Precision := {|
  REAL := Z;
  sizeof_REAL := 8;
  REAL_EPS := 0;
  rzero := 0;
  rone := 1;
  radd := Z.add;
  rsub := Z.sub;
  rmul := Z.mul;
  ropp := Z.opp;
  rgtb := Z.gtb
|}.

(** ** Concrete workers

    Two qubits in the uniform superposition, in double precision, on two
    workers of two amplitudes each.  Qubit 0 is local to a shard; qubit 1
    pairs the two shards. *)

(** A rest of the repository that accepts every gate and whose kernels and
    transfers wipe the state vector they are handed: any call that can
    write shows. *)
#[export] Instance wiping : Collaborators := {|
  validateAlphaBeta := fun _ _ => 1;
  validateMatrixIsUnitary := fun _ => 1;
  writes := fun _ multiQubit =>
    {| stateVec := {| reals := []; imags := [] |};
       pairStateVec := pairStateVec multiQubit;
       numQubits := numQubits multiQubit;
       numAmps := numAmps multiQubit;
       chunkId := chunkId multiQubit;
       numChunks := numChunks multiQubit |}
|}.

Definition half : float := 0.5%float.
Definition zero : float := 0%float.

Definition uniformShard (chunk : Z) : MultiQubit :=
  {| stateVec := {| reals := [half; half]; imags := [zero; zero] |};
     pairStateVec := {| reals := [zero; zero]; imags := [zero; zero] |};
     numQubits := 2;
     numAmps := 2;
     chunkId := chunk;
     numChunks := 2 |}.

Definition upperShard : MultiQubit := uniformShard 0.
Definition lowerShard : MultiQubit := uniformShard 1.

(** A handle for a shard of [2^30] amplitudes; only its sizes matter to
    the exchange. *)
Definition largeShard : MultiQubit :=
  {| stateVec := {| reals := []; imags := [] |};
     pairStateVec := {| reals := []; imags := [] |};
     numQubits := 31;
     numAmps := 2 ^ 30;
     chunkId := 0;
     numChunks := 2 |}.

Definition alpha0 : Complex := {| real := half; imag := zero |}.
Definition beta0 : Complex := {| real := half; imag := half |}.

(** The state |00>, on the same two workers. *)
Definition basisShard (chunk : Z) : MultiQubit :=
  {| stateVec :=
       {| reals := [if chunk =? 0 then 1%float else zero; zero];
          imags := [zero; zero] |};
     pairStateVec := {| reals := [zero; zero]; imags := [zero; zero] |};
     numQubits := 2;
     numAmps := 2;
     chunkId := chunk;
     numChunks := 2 |}.

(** Two qubits on a single worker, which holds the four amplitudes. *)
Definition wholeRegister : MultiQubit :=
  {| stateVec :=
       {| reals := [half; half; half; half];
          imags := [zero; zero; zero; zero] |};
     pairStateVec := {| reals := []; imags := [] |};
     numQubits := 2;
     numAmps := 4;
     chunkId := 0;
     numChunks := 1 |}.

(** A shard with integer amplitudes, for arithmetic without rounding. *)
Definition integerShard : @MultiQubit integer_precision :=
  @Build_MultiQubit integer_precision
    (@Build_ComplexArray integer_precision [3; 0] [0; 4])
    (@Build_ComplexArray integer_precision [0; 0] [0; 0])
    1 2 0 1.

(** The matrix of a Pauli X gate. *)
Definition pauliX : ComplexMatrix2 :=
  {| r0c0 := {| real := zero; imag := zero |};
     r0c1 := {| real := 1%float; imag := zero |};
     r1c0 := {| real := 1%float; imag := zero |};
     r1c1 := {| real := zero; imag := zero |} |}.

(** * Properties *)

(** ** Machine integers *)

Lemma wrap_small w z :
  0 < w -> - 2 ^ (w - 1) <= z < 2 ^ (w - 1) -> wrap w z = z.
Proof.
  intros Hw Hz. unfold wrap.
  assert (E : 2 ^ w = 2 * 2 ^ (w - 1)).
  { replace w with (Z.succ (w - 1)) at 1 by lia.
    rewrite Z.pow_succ_r by lia. reflexivity. }
  rewrite Z.mod_small by lia. lia.
Qed.

Lemma to_int_small z : - 2 ^ 31 <= z < 2 ^ 31 -> to_int z = z.
Proof. intros H. apply wrap_small; lia. Qed.

Lemma to_llong_small z : - 2 ^ 63 <= z < 2 ^ 63 -> to_llong z = z.
Proof. intros H. apply wrap_small; lia. Qed.

Lemma pow2_lt a b : 0 <= a < b -> 2 ^ a < 2 ^ b.
Proof. intros H. apply Z.pow_lt_mono_r; lia. Qed.

Lemma pow2_le a b : 0 <= a <= b -> 2 ^ a <= 2 ^ b.
Proof. intros H. apply Z.pow_le_mono_r; lia. Qed.

Lemma pow2_pos a : 0 <= a -> 0 < 2 ^ a.
Proof. intros H. apply Z.pow_pos_nonneg; lia. Qed.

Lemma shl1_pow2 n : 0 <= n <= 62 -> shl1 n = 2 ^ n.
Proof.
  intros H. unfold shl1. rewrite Z.shiftl_1_l.
  apply to_llong_small.
  pose proof (pow2_pos n ltac:(lia)).
  pose proof (pow2_lt n 63 ltac:(lia)). lia.
Qed.

Lemma truthy_of_bool b : truthy (of_bool b) = b.
Proof. destruct b; reflexivity. Qed.

(** A power of two that does not fit in an [int] wraps to [INT_MIN]
    (exponent 31) or to zero (larger exponents). *)
Lemma to_int_pow2_31 : to_int (2 ^ 31) = - 2 ^ 31.
Proof. reflexivity. Qed.

Lemma to_int_pow2_high k : 32 <= k -> to_int (2 ^ k) = 0.
Proof.
  intros H. unfold to_int, wrap.
  replace k with (32 + (k - 32)) by lia.
  rewrite Z.pow_add_r by lia.
  rewrite Z.add_comm, Z.mul_comm, Z.mod_add by (cbn; lia).
  reflexivity.
Qed.

(** ** Index arithmetic *)

Example chunkIsUpper_ex1 : chunkIsUpper 2 4 3 = 0.
Proof. reflexivity. Qed.

Example chunkIsUpper_ex2 : chunkIsUpper 4 4 3 = 1.
Proof. reflexivity. Qed.

Example isChunkToSkip_ex1 : isChunkToSkipInFindPZero 6 4 3 = 2.
Proof. reflexivity. Qed.

Example getChunkPairId_ex1 : getChunkPairId 1 4 4 3 = 6.
Proof. reflexivity. Qed.

Lemma quot_pow2 (s q : Z) :
  0 <= s <= q -> Z.quot (2 ^ q) (2 ^ s) = 2 ^ (q - s).
Proof.
  intros Hs.
  pose proof (pow2_pos s ltac:(lia)).
  rewrite Z.quot_div_nonneg by (try apply Z.pow_nonneg; lia).
  replace q with ((q - s) + s) at 1 by lia.
  rewrite Z.pow_add_r by lia.
  apply Z.div_mul. lia.
Qed.

Lemma div_pow2 (s q : Z) : 0 <= s <= q -> 2 ^ q / 2 ^ s = 2 ^ (q - s).
Proof.
  intros Hs. rewrite <- (quot_pow2 s q Hs).
  symmetry. apply Z.quot_div_nonneg.
  - apply Z.pow_nonneg. lia.
  - apply pow2_pos. lia.
Qed.

Lemma land_pow2_testbit (c k : Z) :
  0 <= k -> (Z.land c (2 ^ k) <> 0 <-> Z.testbit c k = true).
Proof.
  intros Hk. split.
  - intros Hne. destruct (Z.testbit c k) eqn:E; [reflexivity|].
    exfalso. apply Hne. apply Z.bits_inj'. intros n Hn.
    rewrite Z.land_spec, Z.bits_0.
    destruct (Z.eq_dec n k) as [->|Hnk].
    + rewrite E. reflexivity.
    + rewrite Z.pow2_bits_false by lia. apply andb_false_r.
  - intros Hb Hz.
    assert (Z.testbit (Z.land c (2 ^ k)) k = true) as Hk'.
    { rewrite Z.land_spec, Hb, Z.pow2_bits_true by lia. reflexivity. }
    rewrite Hz, Z.bits_0 in Hk'. discriminate.
Qed.

Lemma testbit_high (c k : Z) :
  0 <= c < 2 ^ 31 -> 31 <= k -> Z.testbit c k = false.
Proof.
  intros Hc Hk. destruct (Z.eq_dec c 0) as [->|Hne].
  - apply Z.bits_0.
  - apply Z.bits_above_log2; [lia|].
    apply Z.log2_lt_pow2; [lia|].
    pose proof (pow2_le 31 k ltac:(lia)). lia.
Qed.

Lemma land_int_min (c : Z) : 0 <= c < 2 ^ 31 -> Z.land c (- 2 ^ 31) = 0.
Proof.
  intros Hc. apply Z.bits_inj'. intros n Hn.
  rewrite Z.land_spec, Z.bits_0.
  destruct (Z_lt_le_dec n 31) as [Hlt|Hge].
  - replace (- 2 ^ 31) with (Z.shiftl (-1) 31) by reflexivity.
    rewrite Z.shiftl_spec_low by lia. apply andb_false_r.
  - rewrite (testbit_high c n Hc) by lia. reflexivity.
Qed.

(** The skip flag is non-zero exactly when bit [q - s] of the chunk id
    is set, whatever the truncation of [2^q / S] to an [int] gives. *)
Lemma isChunkToSkip_testbit (c s q : Z) :
  0 <= c < 2 ^ 31 -> 0 <= s <= q -> q <= 62 ->
  (isChunkToSkipInFindPZero c (2 ^ s) q <> 0 <->
   Z.testbit c (q - s) = true).
Proof.
  intros Hc Hs Hq.
  unfold isChunkToSkipInFindPZero.
  rewrite shl1_pow2 by lia. rewrite quot_pow2 by lia.
  destruct (Z_lt_le_dec (q - s) 31) as [Hlo|Hhi].
  - rewrite to_int_small.
    + apply land_pow2_testbit. lia.
    + pose proof (pow2_pos (q - s) ltac:(lia)).
      pose proof (pow2_lt (q - s) 31 ltac:(lia)). lia.
  - rewrite (testbit_high c (q - s) Hc) by lia.
    destruct (Z.eq_dec (q - s) 31) as [E|Hne].
    + rewrite E, to_int_pow2_31, land_int_min by lia. split; congruence.
    + rewrite to_int_pow2_high by lia. rewrite Z.land_0_r.
      split; congruence.
Qed.

Lemma posInBlock_mod (c s q : Z) :
  0 <= c -> 0 <= s <= q -> q <= 62 -> c * 2 ^ s < 2 ^ 63 ->
  Z.rem (to_llong (c * 2 ^ s)) (to_llong (shl1 q * 2)) =
  (c * 2 ^ s) mod 2 ^ (q + 1).
Proof.
  intros Hc Hs Hq Hcs.
  pose proof (pow2_pos s ltac:(lia)) as Hps.
  assert (0 <= c * 2 ^ s) as Hnn by nia.
  rewrite shl1_pow2 by lia.
  rewrite (to_llong_small (c * 2 ^ s)) by lia.
  replace (2 ^ q * 2) with (2 ^ (q + 1))
    by (rewrite Z.pow_add_r by lia; reflexivity).
  destruct (Z.eq_dec q 62) as [->|Hne].
  - change (to_llong (2 ^ (62 + 1))) with (- 2 ^ 63).
    rewrite Z.rem_opp_r by (cbn; lia).
    rewrite Z.rem_small by (change (62 + 1) with 63 in *; lia).
    rewrite Z.mod_small by (change (62 + 1) with 63; lia).
    reflexivity.
  - pose proof (pow2_pos (q + 1) ltac:(lia)).
    pose proof (pow2_le (q + 1) 62 ltac:(lia)).
    rewrite to_llong_small by lia.
    apply Z.rem_mod_nonneg; lia.
Qed.

Lemma mod_lt_half_testbit (q : Z) :
  0 <= q -> forall a, a mod 2 ^ (q + 1) < 2 ^ q <-> Z.testbit a q = false.
Proof.
  intros Hq a.
  pose proof (pow2_pos q ltac:(lia)) as Hp.
  replace (2 ^ (q + 1)) with (2 ^ q * 2)
    by (rewrite Z.pow_add_r by lia; reflexivity).
  rewrite Z.rem_mul_r by lia.
  pose proof (Z.mod_pos_bound a (2 ^ q) Hp).
  pose proof (Z.mod_pos_bound (a / 2 ^ q) 2 ltac:(lia)).
  rewrite Z.testbit_false by lia.
  split; intros; nia.
Qed.

Lemma chunkIsUpper_mod (c s q : Z) :
  0 <= c -> 0 <= s <= q -> q <= 62 -> c * 2 ^ s < 2 ^ 63 ->
  (chunkIsUpper c (2 ^ s) q = 1 <->
   (c * 2 ^ s) mod 2 ^ (q + 1) < 2 ^ q).
Proof.
  intros Hc Hs Hq Hcs.
  unfold chunkIsUpper. rewrite posInBlock_mod by assumption.
  rewrite shl1_pow2 by lia.
  destruct (Z.ltb_spec ((c * 2 ^ s) mod 2 ^ (q + 1)) (2 ^ q));
    cbn; split; intros; try reflexivity; try lia; discriminate.
Qed.

Lemma chunkIsUpper_01 (c S q : Z) :
  chunkIsUpper c S q = 0 \/ chunkIsUpper c S q = 1.
Proof.
  unfold chunkIsUpper. destruct (_ <? _); cbn; auto.
Qed.

Lemma testbit_shift (c s q : Z) :
  0 <= s <= q -> Z.testbit (c * 2 ^ s) q = Z.testbit c (q - s).
Proof. intros Hs. apply Z.mul_pow2_bits. lia. Qed.

(** Every index of shard [c] carries, from bit [s] upwards, the bits of
    [c]. *)
Lemma shard_testbit (c s q : Z) :
  0 <= s <= q ->
  forall i, c * 2 ^ s <= i < (c + 1) * 2 ^ s ->
  Z.testbit i q = Z.testbit c (q - s).
Proof.
  intros Hs i Hi.
  pose proof (pow2_pos s ltac:(lia)) as Hps.
  assert (i / 2 ^ s = c) as E.
  { symmetry. apply (Z.div_unique i (2 ^ s) c (i - c * 2 ^ s)); lia. }
  rewrite <- E.
  rewrite Z.div_pow2_bits by lia.
  f_equal. lia.
Qed.

(** C7. For a chunk id [c], a shard size [S = 2^s] and a qubit [q] with
    [S <= 2^q]: [isChunkToSkipInFindPZero] is true (non-zero) exactly when
    the bit of [c] that the mask [2^q / S] selects, bit [q - s], is set;
    exactly when every amplitude of the shard has bit [q] set (the shard
    lies in the lower, outcome-1, half of a block); and exactly when
    [chunkIsUpper] is false.  [chunkIsUpper] is true exactly when
    [(c * S) mod 2^(q+1) < 2^q], that is when bit [q] of [c * S] is zero.
    The chunk id is a non-negative [int], [q] is at most 62 and [c * S],
    the index of the first amplitude of the shard, fits a [long long]. *)
Theorem skip_flag_is_lower_half (c S q s : Z) :
  0 <= c < 2 ^ 31 -> S = 2 ^ s -> 0 <= s <= q -> q <= 62 ->
  c * S < 2 ^ 63 ->
  (isChunkToSkipInFindPZero c S q <> 0 <-> Z.testbit c (q - s) = true) /\
  (isChunkToSkipInFindPZero c S q <> 0 <-> Z.land c (2 ^ q / S) <> 0) /\
  (isChunkToSkipInFindPZero c S q <> 0 <->
   forall i, c * S <= i < (c + 1) * S -> Z.testbit i q = true) /\
  (isChunkToSkipInFindPZero c S q <> 0 <-> chunkIsUpper c S q = 0) /\
  (chunkIsUpper c S q <> 0 <-> (c * S) mod 2 ^ (q + 1) < 2 ^ q) /\
  (chunkIsUpper c S q <> 0 <-> Z.testbit (c * S) q = false).
Proof.
  intros Hc -> Hs Hq Hcs.
  pose proof (isChunkToSkip_testbit c s q Hc Hs Hq) as Hskip.
  pose proof (chunkIsUpper_mod c s q ltac:(lia) Hs Hq Hcs) as Hup.
  pose proof (chunkIsUpper_01 c (2 ^ s) q) as H01.
  pose proof (mod_lt_half_testbit q ltac:(lia) (c * 2 ^ s)) as Hbit.
  pose proof (testbit_shift c s q Hs) as Hsh.
  pose proof (land_pow2_testbit c (q - s) ltac:(lia)) as Hland.
  rewrite (div_pow2 s q Hs).
  repeat split.
  - apply Hskip.
  - apply Hskip.
  - intros Hne. apply Hland, Hskip, Hne.
  - intros Hne. apply Hskip, Hland, Hne.
  - intros Hne i Hi. apply Hskip in Hne.
    rewrite (shard_testbit c s q Hs i Hi). exact Hne.
  - intros Hall. apply Hskip.
    pose proof (pow2_pos s ltac:(lia)) as Hps.
    rewrite <- (shard_testbit c s q Hs (c * 2 ^ s)) by lia.
    apply Hall. lia.
  - intros Hne. apply Hskip in Hne.
    destruct H01 as [H0|H1]; [exact H0|].
    apply Hup, Hbit in H1. congruence.
  - intros H0. apply Hskip.
    destruct (Z.testbit c (q - s)) eqn:E; [reflexivity|].
    apply Hbit, Hup in Hsh. lia.
  - intros Hne. apply Hup. lia.
  - intros Hlt. apply Hup in Hlt. lia.
  - intros Hne. apply Hbit, Hup. lia.
  - intros Hb. apply Hbit, Hup in Hb. lia.
Qed.

(** ** The [double] round trip *)

Example to_int_of_int_7 : CDouble.to_int (CDouble.of_int 7) = 7.
Proof. vm_compute. reflexivity. Qed.

Example to_int_of_int_m3 : CDouble.to_int (CDouble.of_int (-3)) = -3.
Proof. vm_compute. reflexivity. Qed.

(** The round trip that the assertion performs on a truth value. *)
Lemma fabs_truth_value (b : bool) :
  CDouble.to_int (CDouble.fabs (CDouble.of_int (of_bool b))) = of_bool b.
Proof. destruct b; vm_compute; reflexivity. Qed.

(** ** The worker monad *)

Section MonadFacts.

Context {prec : Precision} {collab : Collaborators}.

Lemma worker_eta (w : Worker) :
  {| handle := handle w; trace := trace w |} = w.
Proof. destruct w; reflexivity. Qed.

Lemma afterCalls_nil (w : Worker) : afterCalls [] w = w.
Proof.
  unfold afterCalls. cbn. rewrite app_nil_r. apply worker_eta.
Qed.

Lemma afterCalls_app (cs ds : list Call) (w : Worker) :
  afterCalls ds (afterCalls cs w) = afterCalls (cs ++ ds) w.
Proof.
  unfold afterCalls. cbn. rewrite fold_left_app, app_assoc. reflexivity.
Qed.

Lemma call_run (c : Call) (w : Worker) :
  call c w = Returned tt (afterCalls [c] w).
Proof. reflexivity. Qed.

Lemma exitWithError_run (errorCode : Z) (func : string) (w : Worker) :
  exitWithError errorCode func w =
  Aborted errorCode (afterError errorCode func w).
Proof.
  unfold exitWithError, bind, emit, abort, afterError, errorReport. cbn.
  repeat rewrite <- app_assoc. reflexivity.
Qed.

Lemma QuESTAssert_run (isValid errorCode : Z) (func : string) (w : Worker) :
  QuESTAssert isValid errorCode func w =
  if truthy isValid then Returned tt w
  else Aborted errorCode (afterError errorCode func w).
Proof.
  unfold QuESTAssert. destruct (truthy isValid); cbn.
  - reflexivity.
  - apply exitWithError_run.
Qed.

Lemma bind_assert {A : Type} (isValid errorCode : Z) (func : string)
    (k : unit -> M A) (w : Worker) :
  bind (QuESTAssert isValid errorCode func) k w =
  if truthy isValid then k tt w
  else Aborted errorCode (afterError errorCode func w).
Proof.
  unfold bind. rewrite QuESTAssert_run.
  destruct (truthy isValid); reflexivity.
Qed.

Lemma bind_get {A : Type} (k : MultiQubit -> M A) (w : Worker) :
  bind getMultiQubit k w = k (handle w) w.
Proof. reflexivity. Qed.

Lemma bind_Returned {A B : Type} (m : M A) (k : A -> M B) (w : Worker)
    (a : A) (w' : Worker) :
  m w = Returned a w' -> bind m k w = k a w'.
Proof. intros H. unfold bind. rewrite H. reflexivity. Qed.

Lemma forEach_calls (indices : list Z) (body : Z -> M unit)
    (calls : Z -> list Call) :
  (forall i w, body i w = Returned tt (afterCalls (calls i) w)) ->
  forall w,
    forEach indices body w =
    Returned tt (afterCalls (flat_map calls indices) w).
Proof.
  intros Hbody. induction indices as [|i rest IH]; intros w; cbn.
  - rewrite afterCalls_nil. reflexivity.
  - rewrite (bind_Returned _ _ _ _ _ (Hbody i w)).
    rewrite IH, afterCalls_app. reflexivity.
Qed.

End MonadFacts.

(** ** Exchange of state vectors *)

Section ExchangeFacts.

Context {prec : Precision} {collab : Collaborators}.

Lemma sendrecvPair_run (offset maxMessageCount pairRank : Z) (w : Worker) :
  sendrecvPair offset maxMessageCount pairRank w =
  Returned tt
    (afterCalls
       [ transfer RealPart offset (to_int maxMessageCount) pairRank TAG;
         transfer ImagPart offset (to_int maxMessageCount) pairRank TAG ]
       w).
Proof.
  unfold sendrecvPair.
  rewrite (bind_Returned _ _ _ _ _ (call_run _ w)).
  rewrite call_run, afterCalls_app. reflexivity.
Qed.

Lemma exchange_run (pairRank : Z) (w : Worker) :
  exchangeStateVectors pairRank w =
  Returned tt (afterCalls (exchangeCalls (numAmps (handle w)) pairRank) w).
Proof.
  unfold exchangeStateVectors. rewrite bind_get.
  change (truthy DEBUG) with false. cbv iota.
  unfold bind at 1. unfold ret at 1.
  apply forEach_calls. intros i w0. apply sendrecvPair_run.
Qed.

Lemma in_upto (n i : Z) : In i (upto n) <-> 0 <= i < n.
Proof.
  unfold upto. rewrite in_map_iff. split.
  - intros [j [<- Hj]]. apply in_seq in Hj. lia.
  - intros Hi. exists (Z.to_nat i). split; [lia|].
    apply in_seq. lia.
Qed.

Lemma flat_map_ext_in' {A B : Type} (f g : A -> list B) (l : list A) :
  (forall a, In a l -> f a = g a) -> flat_map f l = flat_map g l.
Proof.
  induction l as [|a l IH]; intros H; cbn; [reflexivity|].
  rewrite (H a (or_introl eq_refl)), IH; [reflexivity|].
  intros b Hb. apply H. right. exact Hb.
Qed.

Lemma messageCap_cases :
  messageCap = 2 ^ 27 \/ messageCap = 2 ^ 28 \/ messageCap = 2 ^ 29.
Proof.
  unfold messageCap. destruct (_ =? 8); [tauto|].
  destruct (_ =? 16); tauto.
Qed.

Lemma maxMessageCountFor_min (numAmps : Z) :
  maxMessageCountFor numAmps = Z.min messageCap numAmps.
Proof.
  unfold maxMessageCountFor, messageCap.
  change (shl1 29) with (2 ^ 29).
  change (shl1 28) with (2 ^ 28).
  change (shl1 27) with (2 ^ 27).
  destruct (sizeof_REAL =? 8); [|destruct (sizeof_REAL =? 16)];
    match goal with
    | |- context [?a <? ?b] => destruct (Z.ltb_spec a b)
    end; lia.
Qed.

(** For a shard of [2^k] amplitudes the message size is [2^j]: the
    exponent of the cap, or [k] when the shard is smaller. *)
Lemma maxMessageCountFor_pow2 (k : Z) :
  0 <= k ->
  exists j, 0 <= j <= k /\ j <= 29 /\ (27 <= j \/ j = k) /\
            maxMessageCountFor (2 ^ k) = 2 ^ j.
Proof.
  intros Hk. rewrite maxMessageCountFor_min.
  assert (Hmin : forall e, 0 <= e ->
            Z.min (2 ^ e) (2 ^ k) = 2 ^ (Z.min e k)).
  { intros e He. destruct (Z_le_gt_dec e k).
    - pose proof (pow2_le e k ltac:(lia)).
      rewrite !Z.min_l by lia. reflexivity.
    - pose proof (pow2_lt k e ltac:(lia)).
      rewrite !Z.min_r by lia. reflexivity. }
  destruct messageCap_cases as [E|[E|E]]; rewrite E, Hmin by lia.
  - exists (Z.min 27 k). lia.
  - exists (Z.min 28 k). lia.
  - exists (Z.min 29 k). lia.
Qed.

(** The clean form of the calls of an exchange on a shard of [2^k]
    amplitudes: no conversion wraps. *)
Lemma exchangeCalls_pow2 (k j pairRank : Z) :
  0 <= j <= k -> k <= 57 -> j <= 29 -> 27 <= j \/ j = k ->
  maxMessageCountFor (2 ^ k) = 2 ^ j ->
  exchangeCalls (2 ^ k) pairRank =
  flat_map
    (fun i => [ transfer RealPart (i * 2 ^ j) (2 ^ j) pairRank 100;
                transfer ImagPart (i * 2 ^ j) (2 ^ j) pairRank 100 ])
    (upto (2 ^ (k - j))).
Proof.
  intros Hj Hk Hj29 Hjk Hm.
  unfold exchangeCalls. rewrite Hm. cbv zeta.
  pose proof (pow2_pos j ltac:(lia)) as Hpj.
  pose proof (pow2_le j 29 ltac:(lia)) as Hle.
  pose proof (pow2_pos (k - j) ltac:(lia)) as Hpn.
  pose proof (pow2_le (k - j) 30 ltac:(lia)) as Hn30.
  rewrite quot_pow2 by lia.
  rewrite (to_int_small (2 ^ (k - j))) by lia.
  rewrite (to_int_small (2 ^ j)) by lia.
  apply flat_map_ext_in'. intros i Hi. apply in_upto in Hi.
  assert (2 ^ (k - j) * 2 ^ j = 2 ^ k) as Hprod.
  { rewrite <- Z.pow_add_r by lia. f_equal. lia. }
  pose proof (pow2_le k 57 ltac:(lia)) as Hk57.
  rewrite to_llong_small by nia.
  reflexivity.
Qed.

(** C5. On a shard of [2^k] amplitudes [exchangeStateVectors] returns
    after transfers of exactly [maxMessageCount] elements each, where
    [maxMessageCount] is [2^29], or [2^28] when [REAL] is 8 bytes wide, or
    [2^27] when it is 16 bytes wide, clamped to the shard size.  Every
    transfer is a send-receive with the pair rank under the one tag 100,
    between the state vector and the pair buffer at the same offset, and
    stays inside the shard; [numMessages * maxMessageCount] is the shard
    size, and every element of each of the two arrays lies in exactly one
    transfer.  The exponent [k] is at most 57, so that [numMessages] fits
    the [int] that holds it. *)
Theorem exchange_covers_shard (multiQubit : MultiQubit) (pairRank k : Z) :
  0 <= k <= 57 ->
  numAmps multiQubit = 2 ^ k ->
  let maxMessageCount := Z.min messageCap (2 ^ k) in
  let numMessages := 2 ^ k / maxMessageCount in
  maxMessageCountFor (numAmps multiQubit) = maxMessageCount /\
  numMessages * maxMessageCount = numAmps multiQubit /\
  exists w',
    exec (exchangeStateVectors pairRank) multiQubit = Returned tt w' /\
    trace w' =
      flat_map
        (fun i =>
           [ transfer RealPart (i * maxMessageCount) maxMessageCount
               pairRank 100;
             transfer ImagPart (i * maxMessageCount) maxMessageCount
               pairRank 100 ])
        (upto numMessages) /\
    (forall c, In c (trace w') ->
       exists component offset,
         c = transfer component offset maxMessageCount pairRank 100 /\
         0 <= offset /\ offset + maxMessageCount <= numAmps multiQubit) /\
    (forall component element, 0 <= element < numAmps multiQubit ->
       exists offset,
         In (transfer component offset maxMessageCount pairRank 100)
            (trace w') /\
         offset <= element < offset + maxMessageCount /\
         forall offset',
           In (transfer component offset' maxMessageCount pairRank 100)
              (trace w') ->
           offset' <= element < offset' + maxMessageCount ->
           offset' = offset).
Proof.
  intros Hk HS maxMessageCount numMessages.
  destruct (maxMessageCountFor_pow2 k ltac:(lia))
    as [j [Hj [Hj29 [Hjk Hm]]]].
  assert (maxMessageCount = 2 ^ j) as Em.
  { unfold maxMessageCount. rewrite <- maxMessageCountFor_min. exact Hm. }
  assert (numMessages = 2 ^ (k - j)) as En.
  { unfold numMessages. rewrite Em. apply div_pow2. lia. }
  pose proof (pow2_pos j ltac:(lia)) as Hpj.
  pose proof (pow2_pos (k - j) ltac:(lia)) as Hpn.
  assert (2 ^ (k - j) * 2 ^ j = 2 ^ k) as Hprod.
  { rewrite <- Z.pow_add_r by lia. f_equal. lia. }
  rewrite HS, Em, En. clear Em En maxMessageCount numMessages.
  split; [exact Hm|]. split; [exact Hprod|].
  unfold exec. rewrite exchange_run. cbn [handle].
  rewrite HS, (exchangeCalls_pow2 k j pairRank) by (assumption || lia).
  eexists. split; [reflexivity|]. cbn [trace afterCalls app].
  set (calls := fun i : Z =>
         [ transfer RealPart (i * 2 ^ j) (2 ^ j) pairRank 100;
           transfer ImagPart (i * 2 ^ j) (2 ^ j) pairRank 100 ]).
  assert (Hin : forall component offset,
            In (transfer component offset (2 ^ j) pairRank 100)
               (flat_map calls (upto (2 ^ (k - j)))) <->
            exists i, 0 <= i < 2 ^ (k - j) /\ offset = i * 2 ^ j).
  { intros component offset. rewrite in_flat_map. split.
    - intros [i [Hi Hc]]. apply in_upto in Hi. exists i. split; [lia|].
      destruct Hc as [Hc|[Hc|[]]]; unfold transfer in Hc;
        injection Hc; intros; subst; reflexivity.
    - intros [i [Hi ->]]. exists i. split; [apply in_upto; lia|].
      destruct component; cbn; auto. }
  split; [reflexivity|]. split.
  - intros c Hc. apply in_flat_map in Hc. destruct Hc as [i [Hi Hc]].
    apply in_upto in Hi.
    destruct Hc as [<-|[<-|[]]].
    + exists RealPart, (i * 2 ^ j). split; [reflexivity|]. nia.
    + exists ImagPart, (i * 2 ^ j). split; [reflexivity|]. nia.
  - intros component element He.
    pose proof (Z.div_mod element (2 ^ j) ltac:(lia)) as Hdm.
    pose proof (Z.mod_pos_bound element (2 ^ j) Hpj) as Hmod.
    exists (element / 2 ^ j * 2 ^ j). split; [|split].
    + apply Hin. exists (element / 2 ^ j). split; [|reflexivity].
      split; [apply Z.div_pos; lia|].
      apply Z.div_lt_upper_bound; lia.
    + lia.
    + intros offset' Hin' Hoff'. apply Hin in Hin'.
      destruct Hin' as [i [Hi ->]]. f_equal.
      apply (Z.div_unique element (2 ^ j) i (element - i * 2 ^ j)); lia.
Qed.

End ExchangeFacts.

(** ** Gate dispatch *)

Section GateFacts.

Context {prec : Precision} {collab : Collaborators}.

Lemma exchange_then_call (pairRank : Z) (c : Call) (w : Worker) :
  bind (exchangeStateVectors pairRank) (fun _ => call c) w =
  Returned tt
    (afterCalls (exchangeCalls (numAmps (handle w)) pairRank ++ [c]) w).
Proof.
  rewrite (bind_Returned _ _ _ _ _ (exchange_run pairRank w)).
  rewrite call_run, afterCalls_app. reflexivity.
Qed.

Ltac step_asserts :=
  repeat (rewrite bind_assert; rewrite ?truthy_of_bool;
          match goal with
          | |- (if ?b then _ else _) = _ =>
              destruct b eqn:?; cbn [negb]; [|reflexivity]
          end).

Ltac step_dispatch :=
  unfold dispatchCalls, upperBuffer, lowerBuffer; cbn [handle];
  match goal with
  | |- context [truthy (halfMatrixBlockFitsInChunk ?s ?q)] =>
      destruct (truthy (halfMatrixBlockFitsInChunk s q));
      [ apply call_run | ]
  end;
  try match goal with
  | |- context [getRotAngle ?up ?a ?b] =>
      destruct (getRotAngle up a b) eqn:?; cbn [fst snd]
  | |- context [getRotAngleFromUnitaryMatrix ?up ?u] =>
      destruct (getRotAngleFromUnitaryMatrix up u) eqn:?; cbn [fst snd]
  end;
  try match goal with
  | |- context [truthy (chunkIsUpper ?c ?s ?q)] =>
      destruct (truthy (chunkIsUpper c s q))
  end;
  rewrite exchange_then_call; reflexivity.

Lemma compactUnitary_run (rotQubit : Z) (alpha beta : Complex)
    (multiQubit : MultiQubit) :
  exec (compactUnitary rotQubit alpha beta) multiQubit =
  outcomeOf
    [ (inRange rotQubit multiQubit, 1);
      (truthy (validateAlphaBeta alpha beta), 6) ]
    "compactUnitary"
    (dispatchCalls multiQubit rotQubit
       (compactUnitaryLocal rotQubit alpha beta)
       (fun up =>
            compactUnitaryDistributed rotQubit
              (fst (getRotAngle up alpha beta))
              (snd (getRotAngle up alpha beta))
              (upperBuffer up) (lowerBuffer up) StateVec))
    multiQubit.
Proof.
  unfold exec, compactUnitary, outcomeOf, inRange, maskInRange, maskAvoids.
  fold (fresh multiQubit).
  rewrite bind_get. cbn [handle fresh]. step_asserts.
  cbn [firstFailure]. step_dispatch.
Qed.

Lemma unitary_run (rotQubit : Z) (u : ComplexMatrix2)
    (multiQubit : MultiQubit) :
  exec (unitary rotQubit u) multiQubit =
  outcomeOf
    [ (inRange rotQubit multiQubit, 1);
      (truthy (validateMatrixIsUnitary u), 5) ]
    "unitary"
    (dispatchCalls multiQubit rotQubit
       (unitaryLocal rotQubit u)
       (fun up =>
            unitaryDistributed rotQubit
              (fst (getRotAngleFromUnitaryMatrix up u))
              (snd (getRotAngleFromUnitaryMatrix up u))
              (upperBuffer up) (lowerBuffer up) StateVec))
    multiQubit.
Proof.
  unfold exec, unitary, outcomeOf, inRange, maskInRange, maskAvoids.
  fold (fresh multiQubit).
  rewrite bind_get. cbn [handle fresh]. step_asserts.
  cbn [firstFailure]. step_dispatch.
Qed.

Lemma controlledCompactUnitary_run (rotQubit controlQubit : Z) (alpha beta : Complex)
    (multiQubit : MultiQubit) :
  exec (controlledCompactUnitary rotQubit controlQubit alpha beta) multiQubit =
  outcomeOf
    [ (inRange rotQubit multiQubit, 1);
      (inRange controlQubit multiQubit, 2);
      (negb (controlQubit =? rotQubit), 3);
      (truthy (validateAlphaBeta alpha beta), 6) ]
    "controlledCompactUnitary"
    (dispatchCalls multiQubit rotQubit
       (controlledCompactUnitaryLocal rotQubit controlQubit alpha beta)
       (fun up =>
            controlledCompactUnitaryDistributed rotQubit controlQubit
              (fst (getRotAngle up alpha beta))
              (snd (getRotAngle up alpha beta))
              (upperBuffer up) (lowerBuffer up) StateVec))
    multiQubit.
Proof.
  unfold exec, controlledCompactUnitary, outcomeOf, inRange, maskInRange, maskAvoids.
  fold (fresh multiQubit).
  rewrite bind_get. cbn [handle fresh]. step_asserts.
  cbn [firstFailure]. step_dispatch.
Qed.

Lemma controlledUnitary_run (rotQubit controlQubit : Z) (u : ComplexMatrix2)
    (multiQubit : MultiQubit) :
  exec (controlledUnitary rotQubit controlQubit u) multiQubit =
  outcomeOf
    [ (inRange rotQubit multiQubit, 1);
      (inRange controlQubit multiQubit, 2);
      (negb (controlQubit =? rotQubit), 3);
      (truthy (validateMatrixIsUnitary u), 5) ]
    "controlledUnitary"
    (dispatchCalls multiQubit rotQubit
       (controlledUnitaryLocal rotQubit controlQubit u)
       (fun up =>
            controlledUnitaryDistributed rotQubit controlQubit
              (fst (getRotAngleFromUnitaryMatrix up u))
              (snd (getRotAngleFromUnitaryMatrix up u))
              (upperBuffer up) (lowerBuffer up) StateVec))
    multiQubit.
Proof.
  unfold exec, controlledUnitary, outcomeOf, inRange, maskInRange, maskAvoids.
  fold (fresh multiQubit).
  rewrite bind_get. cbn [handle fresh]. step_asserts.
  cbn [firstFailure]. step_dispatch.
Qed.

Lemma multiControlledUnitary_run (controlQubits : list Z) (numControlQubits rotQubit : Z)
    (u : ComplexMatrix2)
    (multiQubit : MultiQubit) :
  exec (multiControlledUnitary controlQubits numControlQubits rotQubit u) multiQubit =
  outcomeOf
    [ (inRange rotQubit multiQubit, 1);
      (inRange numControlQubits multiQubit, 4);
      (truthy (validateMatrixIsUnitary u), 5);
      (maskInRange (controlMask controlQubits numControlQubits) multiQubit, 2);
      (maskAvoids (controlMask controlQubits numControlQubits) rotQubit, 3) ]
    "multiControlledUnitary"
    (dispatchCalls multiQubit rotQubit
       (multiControlledUnitaryLocal rotQubit
            (controlMask controlQubits numControlQubits) u)
       (fun up =>
            multiControlledUnitaryDistributed rotQubit
              (controlMask controlQubits numControlQubits)
              (fst (getRotAngleFromUnitaryMatrix up u))
              (snd (getRotAngleFromUnitaryMatrix up u))
              (upperBuffer up) (lowerBuffer up) StateVec))
    multiQubit.
Proof.
  unfold exec, multiControlledUnitary, outcomeOf, inRange, maskInRange, maskAvoids.
  fold (fresh multiQubit).
  rewrite bind_get. cbn [handle fresh]. step_asserts.
  cbn [firstFailure]. step_dispatch.
Qed.

Lemma sigmaX_run (rotQubit : Z)
    (multiQubit : MultiQubit) :
  exec (sigmaX rotQubit) multiQubit =
  outcomeOf
    [ (inRange rotQubit multiQubit, 1) ]
    "sigmaX"
    (dispatchCalls multiQubit rotQubit
       (sigmaXLocal rotQubit)
       (fun _ => sigmaXDistributed rotQubit PairStateVec StateVec))
    multiQubit.
Proof.
  unfold exec, sigmaX, outcomeOf, inRange, maskInRange, maskAvoids.
  fold (fresh multiQubit).
  rewrite bind_get. cbn [handle fresh]. step_asserts.
  cbn [firstFailure]. step_dispatch.
Qed.

Lemma controlledNot_run (controlQubit rotQubit : Z)
    (multiQubit : MultiQubit) :
  exec (controlledNot controlQubit rotQubit) multiQubit =
  outcomeOf
    [ (inRange rotQubit multiQubit, 1);
      (inRange controlQubit multiQubit, 2);
      (negb (controlQubit =? rotQubit), 3) ]
    "controlledNot"
    (dispatchCalls multiQubit rotQubit
       (controlledNotLocal controlQubit rotQubit)
       (fun _ =>
            controlledNotDistributed controlQubit rotQubit
              PairStateVec StateVec))
    multiQubit.
Proof.
  unfold exec, controlledNot, outcomeOf, inRange, maskInRange, maskAvoids.
  fold (fresh multiQubit).
  rewrite bind_get. cbn [handle fresh]. step_asserts.
  cbn [firstFailure]. step_dispatch.
Qed.

Lemma sigmaY_run (rotQubit : Z)
    (multiQubit : MultiQubit) :
  exec (sigmaY rotQubit) multiQubit =
  outcomeOf
    [ (inRange rotQubit multiQubit, 1) ]
    "sigmaY"
    (dispatchCalls multiQubit rotQubit
       (sigmaYLocal rotQubit)
       (fun up => sigmaYDistributed rotQubit PairStateVec StateVec up))
    multiQubit.
Proof.
  unfold exec, sigmaY, outcomeOf, inRange, maskInRange, maskAvoids.
  fold (fresh multiQubit).
  rewrite bind_get. cbn [handle fresh]. step_asserts.
  cbn [firstFailure]. step_dispatch.
Qed.

Lemma hadamard_run (rotQubit : Z)
    (multiQubit : MultiQubit) :
  exec (hadamard rotQubit) multiQubit =
  outcomeOf
    [ (inRange rotQubit multiQubit, 1) ]
    "hadamard"
    (dispatchCalls multiQubit rotQubit
       (hadamardLocal rotQubit)
       (fun up =>
            hadamardDistributed rotQubit
              (upperBuffer up) (lowerBuffer up) StateVec up))
    multiQubit.
Proof.
  unfold exec, hadamard, outcomeOf, inRange, maskInRange, maskAvoids.
  fold (fresh multiQubit).
  rewrite bind_get. cbn [handle fresh]. step_asserts.
  cbn [firstFailure]. step_dispatch.
Qed.

Lemma phaseGate_run (rotQubit type : Z) (multiQubit : MultiQubit) :
  exec (phaseGate rotQubit type) multiQubit =
  outcomeOf [ (inRange rotQubit multiQubit, 1) ] "phaseGate"
    (phaseGateCalls multiQubit rotQubit type) multiQubit.
Proof.
  unfold exec, phaseGate, outcomeOf, inRange, phaseGateCalls.
  fold (fresh multiQubit).
  rewrite bind_get. cbn [handle fresh]. step_asserts.
  cbn [firstFailure].
  destruct (truthy (halfMatrixBlockFitsInChunk _ _)); [apply call_run|].
  destruct (truthy (chunkIsUpper _ _ _)); cbn [negb].
  - unfold ret. rewrite afterCalls_nil. reflexivity.
  - apply call_run.
Qed.

(** *** Which path a dispatch takes *)

Lemma blockFits_gt (chunkSize rotQubit : Z) :
  0 <= rotQubit <= 62 ->
  truthy (halfMatrixBlockFitsInChunk chunkSize rotQubit) =
  (chunkSize >? 2 ^ rotQubit).
Proof.
  intros Hq. unfold halfMatrixBlockFitsInChunk.
  rewrite shl1_pow2 by lia.
  destruct (chunkSize >? 2 ^ rotQubit); reflexivity.
Qed.

Lemma inRange_bounds (qubit : Z) (multiQubit : MultiQubit) :
  inRange qubit multiQubit = true ->
  0 <= qubit < numQubits multiQubit.
Proof. unfold inRange. lia. Qed.

Lemma outcomeOf_Returned (checks : list (bool * Z)) (func : string)
    (calls : list Call) (multiQubit : MultiQubit) (w' : Worker) :
  outcomeOf checks func calls multiQubit = Returned tt w' ->
  firstFailure checks = None /\
  w' = afterCalls calls (fresh multiQubit).
Proof.
  unfold outcomeOf. destruct (firstFailure checks); [discriminate|].
  intros H. injection H as <-. split; reflexivity.
Qed.

Lemma firstFailure_head (b : bool) (errorCode : Z)
    (rest : list (bool * Z)) :
  firstFailure ((b, errorCode) :: rest) = None ->
  b = true /\ firstFailure rest = None.
Proof. destruct b; cbn; [tauto|discriminate]. Qed.

Lemma dispatch_local (multiQubit : MultiQubit) (rotQubit : Z)
    (localKernel : Call) (distributedKernel : Z -> Call) :
  0 <= rotQubit <= 62 -> numAmps multiQubit > 2 ^ rotQubit ->
  dispatchCalls multiQubit rotQubit localKernel distributedKernel =
  [localKernel].
Proof.
  intros Hq HS. unfold dispatchCalls. rewrite blockFits_gt by lia.
  destruct (Z.gtb_spec (numAmps multiQubit) (2 ^ rotQubit)); [|lia].
  reflexivity.
Qed.

Lemma dispatch_distributed (multiQubit : MultiQubit) (rotQubit : Z)
    (localKernel : Call) (distributedKernel : Z -> Call) :
  0 <= rotQubit <= 62 -> numAmps multiQubit <= 2 ^ rotQubit ->
  dispatchCalls multiQubit rotQubit localKernel distributedKernel =
  exchangeCalls (numAmps multiQubit)
    (getChunkPairId
       (chunkIsUpper (chunkId multiQubit) (numAmps multiQubit) rotQubit)
       (chunkId multiQubit) (numAmps multiQubit) rotQubit)
  ++ [distributedKernel
        (chunkIsUpper (chunkId multiQubit) (numAmps multiQubit) rotQubit)].
Proof.
  intros Hq HS. unfold dispatchCalls. rewrite blockFits_gt by lia.
  destruct (Z.gtb_spec (numAmps multiQubit) (2 ^ rotQubit)); [lia|].
  reflexivity.
Qed.

(** What a gate that returned has done: its target is in range and its
    trace is the calls of its dispatch. *)
Lemma returned_dispatch (rest : list (bool * Z)) (func : string)
    (calls : list Call) (multiQubit : MultiQubit) (rotQubit : Z)
    (w' : Worker) :
  outcomeOf ((inRange rotQubit multiQubit, 1) :: rest) func calls
    multiQubit = Returned tt w' ->
  numQubits multiQubit <= 63 ->
  0 <= rotQubit <= 62 /\ trace w' = calls /\
  w' = afterCalls calls (fresh multiQubit).
Proof.
  intros H HN. apply outcomeOf_Returned in H. destruct H as [Hc ->].
  apply firstFailure_head in Hc. destruct Hc as [Hr _].
  apply inRange_bounds in Hr. split; [lia|]. split; reflexivity.
Qed.

Lemma getRotAngle_coefficients (up : Z) (alpha beta : Complex) :
  getRotAngle up alpha beta = compactCoefficients up alpha beta.
Proof.
  unfold getRotAngle, compactCoefficients, truthy.
  destruct (up =? 0); reflexivity.
Qed.

Lemma getRotAngleFromUnitaryMatrix_coefficients (up : Z)
    (u : ComplexMatrix2) :
  getRotAngleFromUnitaryMatrix up u = matrixCoefficients up u.
Proof.
  unfold getRotAngleFromUnitaryMatrix, matrixCoefficients, truthy.
  destruct (up =? 0); reflexivity.
Qed.

Ltac distributed_trace Hrun HN HS :=
  apply returned_dispatch in Hrun; [|exact HN];
  destruct Hrun as [Hq [Htrace _]];
  rewrite Htrace, dispatch_distributed by (exact Hq || exact HS);
  rewrite ?getRotAngle_coefficients,
          ?getRotAngleFromUnitaryMatrix_coefficients;
  reflexivity.

(** C1. On the distributed path (the shard is no larger than the half
    block and the gate got past its validation) the distributed kernel
    is called, after the exchange, with [rot1 = alpha] and [rot2] the
    component-wise negation of [beta], no conjugation, when the shard is
    upper, and with [rot1 = beta], [rot2 = alpha] when it is lower, for
    [compactUnitary] and [controlledCompactUnitary]; with [(u00, u01)] on
    an upper shard and [(u10, u11)] on a lower one for [unitary],
    [controlledUnitary] and [multiControlledUnitary]. *)
Theorem distributed_kernel_coefficients (multiQubit : MultiQubit)
    (rotQubit : Z) :
  numQubits multiQubit <= 63 ->
  numAmps multiQubit <= 2 ^ rotQubit ->
  let up :=
    chunkIsUpper (chunkId multiQubit) (numAmps multiQubit) rotQubit in
  let exchange :=
    exchangeCalls (numAmps multiQubit) (pairRankOf multiQubit rotQubit) in
  (forall alpha beta,
     getRotAngle up alpha beta =
     if up =? 0 then (beta, alpha)
     else (alpha,
           {| real := ropp (real beta); imag := ropp (imag beta) |})) /\
  (forall u,
     getRotAngleFromUnitaryMatrix up u =
     if up =? 0 then (r1c0 u, r1c1 u) else (r0c0 u, r0c1 u)) /\
  (forall alpha beta w',
     exec (compactUnitary rotQubit alpha beta) multiQubit
       = Returned tt w' ->
     trace w' =
       exchange ++
       [compactUnitaryDistributed rotQubit
          (fst (compactCoefficients up alpha beta))
          (snd (compactCoefficients up alpha beta))
          (upperBuffer up) (lowerBuffer up) StateVec]) /\
  (forall controlQubit alpha beta w',
     exec (controlledCompactUnitary rotQubit controlQubit alpha beta)
       multiQubit = Returned tt w' ->
     trace w' =
       exchange ++
       [controlledCompactUnitaryDistributed rotQubit controlQubit
          (fst (compactCoefficients up alpha beta))
          (snd (compactCoefficients up alpha beta))
          (upperBuffer up) (lowerBuffer up) StateVec]) /\
  (forall u w',
     exec (unitary rotQubit u) multiQubit = Returned tt w' ->
     trace w' =
       exchange ++
       [unitaryDistributed rotQubit
          (fst (matrixCoefficients up u)) (snd (matrixCoefficients up u))
          (upperBuffer up) (lowerBuffer up) StateVec]) /\
  (forall controlQubit u w',
     exec (controlledUnitary rotQubit controlQubit u) multiQubit
       = Returned tt w' ->
     trace w' =
       exchange ++
       [controlledUnitaryDistributed rotQubit controlQubit
          (fst (matrixCoefficients up u)) (snd (matrixCoefficients up u))
          (upperBuffer up) (lowerBuffer up) StateVec]) /\
  (forall controlQubits numControlQubits u w',
     exec (multiControlledUnitary controlQubits numControlQubits
             rotQubit u) multiQubit = Returned tt w' ->
     trace w' =
       exchange ++
       [multiControlledUnitaryDistributed rotQubit
          (controlMask controlQubits numControlQubits)
          (fst (matrixCoefficients up u)) (snd (matrixCoefficients up u))
          (upperBuffer up) (lowerBuffer up) StateVec]).
Proof.
  intros HN HS up exchange.
  split; [intros; apply getRotAngle_coefficients|].
  split; [intros; apply getRotAngleFromUnitaryMatrix_coefficients|].
  unfold up, exchange, pairRankOf. clear up exchange.
  repeat split.
  - intros alpha beta w' Hrun. rewrite compactUnitary_run in Hrun.
    distributed_trace Hrun HN HS.
  - intros controlQubit alpha beta w' Hrun.
    rewrite controlledCompactUnitary_run in Hrun.
    distributed_trace Hrun HN HS.
  - intros u w' Hrun. rewrite unitary_run in Hrun.
    distributed_trace Hrun HN HS.
  - intros controlQubit u w' Hrun. rewrite controlledUnitary_run in Hrun.
    distributed_trace Hrun HN HS.
  - intros controlQubits numControlQubits u w' Hrun.
    rewrite multiControlledUnitary_run in Hrun.
    distributed_trace Hrun HN HS.
Qed.

(** C8. On the distributed path of [sigmaX] and of [controlledNot] the
    distributed kernel is called, after the exchange, with the pair
    buffer as input and the state vector as output; the call carries no
    coefficient and is the same whichever half the shard lies in. *)
Theorem sigmaX_controlledNot_read_pair_buffer (multiQubit : MultiQubit)
    (rotQubit : Z) :
  numQubits multiQubit <= 63 ->
  numAmps multiQubit <= 2 ^ rotQubit ->
  let exchange :=
    exchangeCalls (numAmps multiQubit) (pairRankOf multiQubit rotQubit) in
  (forall w',
     exec (sigmaX rotQubit) multiQubit = Returned tt w' ->
     trace w' =
       exchange ++ [sigmaXDistributed rotQubit PairStateVec StateVec]) /\
  (forall controlQubit w',
     exec (controlledNot controlQubit rotQubit) multiQubit
       = Returned tt w' ->
     trace w' =
       exchange ++
       [controlledNotDistributed controlQubit rotQubit
          PairStateVec StateVec]).
Proof.
  intros HN HS exchange. unfold exchange, pairRankOf. clear exchange.
  split.
  - intros w' Hrun. rewrite sigmaX_run in Hrun.
    distributed_trace Hrun HN HS.
  - intros controlQubit w' Hrun. rewrite controlledNot_run in Hrun.
    distributed_trace Hrun HN HS.
Qed.

(** *** Phase gate *)

(** C6. [phaseGate] makes no transfer, whatever its outcome.  When it
    returns: on a shard larger than the half block it has called the
    local kernel and nothing else; on the distributed path it has called
    [phaseGateDistributed], and nothing else, when the shard is lower
    ([chunkIsUpper] false), and on an upper shard it has made no call at
    all and the worker, both arrays included, is as it was. *)
Theorem phaseGate_never_exchanges (multiQubit : MultiQubit)
    (rotQubit type : Z) :
  numQubits multiQubit <= 63 ->
  let up :=
    chunkIsUpper (chunkId multiQubit) (numAmps multiQubit) rotQubit in
  (forall c,
     In c (trace (finalWorker (exec (phaseGate rotQubit type) multiQubit)))
     -> isExchange c = false) /\
  (forall w',
     exec (phaseGate rotQubit type) multiQubit = Returned tt w' ->
     (numAmps multiQubit > 2 ^ rotQubit ->
      trace w' = [phaseGateLocal rotQubit type]) /\
     (numAmps multiQubit <= 2 ^ rotQubit -> up = 0 ->
      trace w' = [phaseGateDistributed rotQubit type]) /\
     (numAmps multiQubit <= 2 ^ rotQubit -> up <> 0 ->
      trace w' = [] /\ handle w' = multiQubit)).
Proof.
  intros HN up. split.
  - intros c. rewrite phaseGate_run.
    unfold outcomeOf, phaseGateCalls. cbn [firstFailure].
    destruct (inRange rotQubit multiQubit); cbn [firstFailure finalWorker].
    + destruct (truthy (halfMatrixBlockFitsInChunk _ _));
        [|destruct (truthy (chunkIsUpper _ _ _))]; cbn;
        intuition (subst; reflexivity).
    + cbn. intuition (subst; reflexivity).
  - intros w' Hrun. rewrite phaseGate_run in Hrun.
    apply returned_dispatch in Hrun; [|exact HN].
    destruct Hrun as [Hq [Htrace ->]].
    unfold phaseGateCalls in *. rewrite blockFits_gt in * by lia.
    fold up in Htrace |- *.
    destruct (Z.gtb_spec (numAmps multiQubit) (2 ^ rotQubit)) as [Hgt|Hle].
    + repeat split; intros; solve [lia | reflexivity].
    + unfold truthy in *.
      destruct (Z.eqb_spec up 0) as [E|E]; cbn [negb] in *;
        repeat split; intros; try lia; reflexivity.
Qed.

(** *** The dispatch rule, over all gates *)

Lemma exchange_no_kernel (numAmps pairRank : Z) (c : Call) :
  In c (exchangeCalls numAmps pairRank) -> kernelOf c = None.
Proof.
  unfold exchangeCalls. rewrite in_flat_map.
  intros [i [_ [<-|[<-|[]]]]]; reflexivity.
Qed.

Lemma pow2_succ_gt (q : Z) : 0 <= q -> 2 ^ (q + 1) > 2 ^ q.
Proof.
  intros Hq. pose proof (pow2_lt q (q + 1) ltac:(lia)). lia.
Qed.

(** The rule for a gate that follows the template, from its calls. *)
Lemma template_rule (g : Gate) (rotQubit : Z) (multiQubit : MultiQubit)
    (localKernel : Call) (distributedKernel : Z -> Call) (w' : Worker) :
  0 <= rotQubit <= 62 ->
  trace w' =
    dispatchCalls multiQubit rotQubit localKernel distributedKernel ->
  kernelOf localKernel = Some (gateName g, LocalKernel, rotQubit) ->
  (forall up, kernelOf (distributedKernel up)
              = Some (gateName g, DistributedKernel, rotQubit)) ->
  (invokesLocalKernel g rotQubit w' <->
   numAmps multiQubit > 2 ^ rotQubit) /\
  (numAmps multiQubit > 2 ^ rotQubit -> takesLocalPath g rotQubit w') /\
  (numAmps multiQubit <= 2 ^ rotQubit ->
   takesExchangePath g rotQubit multiQubit w').
Proof.
  intros Hq Htrace HL HD.
  unfold invokesLocalKernel, takesLocalPath, takesExchangePath.
  rewrite Htrace.
  destruct (Z_gt_le_dec (numAmps multiQubit) (2 ^ rotQubit)) as [Hgt|Hle].
  - rewrite dispatch_local by assumption.
    split; [|split].
    + split; [intros _; exact Hgt|].
      intros _. exists localKernel. split; [left; reflexivity|exact HL].
    + intros _. exists localKernel. split; [reflexivity|exact HL].
    + intros Hle. lia.
  - rewrite dispatch_distributed by assumption.
    split; [|split].
    + split; [|intros Hgt; lia].
      intros [k [Hin Hk]]. apply in_app_or in Hin.
      destruct Hin as [Hin|[<-|[]]].
      * apply exchange_no_kernel in Hin. congruence.
      * rewrite HD in Hk. discriminate.
    + intros Hgt. lia.
    + intros _. eexists. split; [reflexivity|apply HD].
Qed.

Ltac by_template Hrun HN :=
  apply returned_dispatch in Hrun; [|exact HN];
  destruct Hrun as [Hq [Htrace _]];
  split; [exact Hq|];
  eapply template_rule; [exact Hq|exact Htrace|reflexivity|];
  intros; reflexivity.

(** Every gate other than [phaseGate] follows the template. *)
Lemma gates_follow_template (g : Gate) (rotQubit : Z)
    (multiQubit : MultiQubit) (w' : Worker) :
  numQubits multiQubit <= 63 ->
  (forall type, g <> PhaseGate type) ->
  exec (applyGate g rotQubit) multiQubit = Returned tt w' ->
  0 <= rotQubit <= 62 /\
  (invokesLocalKernel g rotQubit w' <->
   numAmps multiQubit > 2 ^ rotQubit) /\
  (numAmps multiQubit > 2 ^ rotQubit -> takesLocalPath g rotQubit w') /\
  (numAmps multiQubit <= 2 ^ rotQubit ->
   takesExchangePath g rotQubit multiQubit w').
Proof.
  intros HN Hphase Hrun. destruct g; cbn [applyGate] in Hrun.
  - rewrite compactUnitary_run in Hrun. by_template Hrun HN.
  - rewrite unitary_run in Hrun. by_template Hrun HN.
  - rewrite controlledCompactUnitary_run in Hrun. by_template Hrun HN.
  - rewrite controlledUnitary_run in Hrun. by_template Hrun HN.
  - rewrite multiControlledUnitary_run in Hrun. by_template Hrun HN.
  - rewrite sigmaX_run in Hrun. by_template Hrun HN.
  - rewrite sigmaY_run in Hrun. by_template Hrun HN.
  - rewrite controlledNot_run in Hrun. by_template Hrun HN.
  - exfalso. apply (Hphase type). reflexivity.
  - rewrite hadamard_run in Hrun. by_template Hrun HN.
Qed.

(** C2, amended. For a gate that got past its validation, on target
    qubit [q] and a shard of [S] amplitudes: the local kernel of the gate
    is invoked if and only if [S > 2^q], and then it is the only call; the
    boundary case [S = 2^(q+1)] is local.  Otherwise every gate but
    [phaseGate] makes the exchange with the pair rank and then calls its
    distributed kernel; [phaseGate] makes no exchange, and calls its
    distributed kernel on a lower shard only. *)
Theorem dispatch_local_iff_block_fits (g : Gate) (rotQubit : Z)
    (multiQubit : MultiQubit) (w' : Worker) :
  numQubits multiQubit <= 63 ->
  exec (applyGate g rotQubit) multiQubit = Returned tt w' ->
  (invokesLocalKernel g rotQubit w' <->
   numAmps multiQubit > 2 ^ rotQubit) /\
  (numAmps multiQubit > 2 ^ rotQubit -> takesLocalPath g rotQubit w') /\
  (numAmps multiQubit = 2 ^ (rotQubit + 1) ->
   takesLocalPath g rotQubit w') /\
  (numAmps multiQubit <= 2 ^ rotQubit ->
   match g with
   | PhaseGate type =>
       trace w' =
       if chunkIsUpper (chunkId multiQubit) (numAmps multiQubit) rotQubit
          =? 0
       then [phaseGateDistributed rotQubit type]
       else []
   | _ => takesExchangePath g rotQubit multiQubit w'
   end).
Proof.
  intros HN Hrun.
  assert (Hphase : (exists type, g = PhaseGate type) \/
                   (forall type, g <> PhaseGate type)).
  { destruct g; try (right; intros; discriminate). left. eauto. }
  destruct Hphase as [[type ->]|Hphase].
  - cbn [applyGate] in Hrun. rewrite phaseGate_run in Hrun.
    apply returned_dispatch in Hrun; [|exact HN].
    destruct Hrun as [Hq [Htrace _]].
    unfold invokesLocalKernel, takesLocalPath. rewrite Htrace.
    unfold phaseGateCalls. rewrite blockFits_gt by lia.
    pose proof (pow2_succ_gt rotQubit ltac:(lia)) as Hsucc.
    destruct (Z.gtb_spec (numAmps multiQubit) (2 ^ rotQubit)) as [Hgt|Hle].
    + repeat split; intros; try lia;
        try (eexists; split; [try left; reflexivity|reflexivity]).
    + unfold truthy.
      destruct (chunkIsUpper _ _ _ =? 0); cbn [negb];
        repeat split; intros; try lia; try reflexivity;
        match goal with
        | H : exists _, _ |- _ =>
            destruct H as [k [Hin Hk]]; cbn in Hin;
            intuition (subst; discriminate)
        end.
  - destruct (gates_follow_template g rotQubit multiQubit w' HN Hphase Hrun)
      as [Hq [Hiff [Hloc Hdist]]].
    pose proof (pow2_succ_gt rotQubit ltac:(lia)) as Hsucc.
    split; [exact Hiff|]. split; [exact Hloc|].
    split; [intros E; apply Hloc; lia|].
    intros Hle. destruct g; try (apply Hdist; exact Hle).
    exfalso. apply (Hphase type). reflexivity.
Qed.

End GateFacts.

(** ** Measurement *)

Section MeasurementFacts.

Context {prec : Precision} {collab : Collaborators}.

Variable peers : list MultiQubit.

Lemma map_insertAt {A B : Type} (f : A -> B) (position : Z) (x : A)
    (l : list A) :
  map f (insertAt position x l) = insertAt position (f x) (map f l).
Proof.
  unfold insertAt. rewrite map_app. cbn [map].
  rewrite firstn_map, skipn_map. reflexivity.
Qed.

Lemma allreduce_is_sum_over_workers (multiQubit : MultiQubit)
    (measureQubit : Z) :
  MPI_Allreduce_SUM (chunkId multiQubit)
    (stateProbOf multiQubit measureQubit)
    (map (fun peer => stateProbOf peer measureQubit) peers) =
  probabilityOfZero peers multiQubit measureQubit.
Proof.
  unfold MPI_Allreduce_SUM, probabilityOfZero, allWorkers.
  rewrite map_insertAt. reflexivity.
Qed.

Lemma findProbabilityOfOutcome_run (measureQubit outcome : Z)
    (multiQubit : MultiQubit) :
  exec (findProbabilityOfOutcome peers measureQubit outcome) multiQubit =
  if inRange measureQubit multiQubit then
    Returned
      (if outcome =? 1
       then rsub rone (probabilityOfZero peers multiQubit measureQubit)
       else probabilityOfZero peers multiQubit measureQubit)
      (afterReduction multiQubit measureQubit)
  else
    Aborted 2
      (afterError 2 "findProbabilityOfOutcome" (fresh multiQubit)).
Proof.
  unfold exec, findProbabilityOfOutcome, inRange.
  fold (fresh multiQubit).
  rewrite bind_get, bind_assert, truthy_of_bool. cbn [handle fresh].
  destruct ((measureQubit >=? 0) && (measureQubit <? numQubits multiQubit));
    [|reflexivity].
  rewrite allreduce_is_sum_over_workers. reflexivity.
Qed.

Lemma collapseToOutcome_run (measureQubit outcome : Z)
    (multiQubit : MultiQubit) :
  exec (collapseToOutcome peers measureQubit outcome) multiQubit =
  match
    exec (findProbabilityOfOutcome peers measureQubit outcome) multiQubit
  with
  | Aborted _ _ =>
      Aborted 2 (afterError 2 "collapseToOutcome" (fresh multiQubit))
  | Returned totalStateProb w =>
      if rgtb totalStateProb REAL_EPS then
        Returned totalStateProb
          (afterCalls
             [collapseKernel multiQubit measureQubit outcome
                totalStateProb] w)
      else Aborted 8 (afterError 8 "collapseToOutcome" w)
  end.
Proof.
  rewrite findProbabilityOfOutcome_run.
  pose proof (findProbabilityOfOutcome_run measureQubit outcome multiQubit)
    as Hfind.
  unfold exec, collapseToOutcome, inRange in *.
  fold (fresh multiQubit) in *.
  rewrite bind_get, bind_assert, truthy_of_bool. cbn [handle fresh].
  destruct ((measureQubit >=? 0) && (measureQubit <? numQubits multiQubit));
    [|reflexivity].
  rewrite (bind_Returned _ _ _ _ _ Hfind).
  rewrite bind_assert, fabs_truth_value, truthy_of_bool.
  destruct (rgtb _ REAL_EPS); [|reflexivity].
  unfold collapseKernel.
  destruct (truthy (halfMatrixBlockFitsInChunk _ _));
    [|destruct (negb (truthy (isChunkToSkipInFindPZero _ _ _)));
      [destruct (outcome =? 0)|destruct (outcome =? 1)]];
    reflexivity.
Qed.

(** A shard that holds whole blocks is never one to skip. *)
Lemma no_skip_when_block_fits (c S q : Z) :
  0 <= q <= 62 -> S > 2 ^ q -> isChunkToSkipInFindPZero c S q = 0.
Proof.
  intros Hq HS. unfold isChunkToSkipInFindPZero.
  rewrite shl1_pow2 by lia.
  pose proof (pow2_pos q ltac:(lia)).
  rewrite Z.quot_small by lia.
  change (to_int 0) with 0. apply Z.land_0_r.
Qed.

(** C3. For a measured qubit in range, [findProbabilityOfOutcome] returns
    [p0] for outcome 0 and [1 - p0] for outcome 1 and leaves the handle as
    it was, where [p0] is the sum, reduced over every worker, of the
    contribution of its shard: the sum of [re^2 + im^2] over the upper
    halves of the blocks in the shard when [S > 2^q]; the sum over the
    whole shard when [S <= 2^q] and [isChunkToSkipInFindPZero] is false;
    zero when [isChunkToSkipInFindPZero] is true. *)
Theorem findProbabilityOfOutcome_reduces_contributions
    (multiQubit : MultiQubit) (measureQubit : Z) :
  0 <= measureQubit < numQubits multiQubit ->
  numQubits multiQubit <= 63 ->
  let contribution := fun w => stateProbOf w measureQubit in
  let skips := fun w =>
    isChunkToSkipInFindPZero (chunkId w) (numAmps w) measureQubit in
  let p0 := MPI_SUM (map contribution (allWorkers peers multiQubit)) in
  (forall w, numAmps w > 2 ^ measureQubit ->
     contribution w = sumProbabilities (upperHalfAmps w measureQubit)) /\
  (forall w, numAmps w <= 2 ^ measureQubit -> skips w = 0 ->
     contribution w = sumProbabilities (shardAmps w)) /\
  (forall w, skips w <> 0 -> contribution w = rzero) /\
  (exists w',
     exec (findProbabilityOfOutcome peers measureQubit 0) multiQubit
       = Returned p0 w' /\ handle w' = multiQubit) /\
  (exists w',
     exec (findProbabilityOfOutcome peers measureQubit 1) multiQubit
       = Returned (rsub rone p0) w' /\ handle w' = multiQubit).
Proof.
  intros Hq HN contribution skips p0.
  assert (Hfits : forall w,
            truthy (halfMatrixBlockFitsInChunk (numAmps w) measureQubit)
            = (numAmps w >? 2 ^ measureQubit))
    by (intros w; apply blockFits_gt; lia).
  assert (Hrange : inRange measureQubit multiQubit = true)
    by (unfold inRange; lia).
  unfold contribution, skips, stateProbOf.
  split; [|split; [|split; [|split]]].
  - intros w HS. rewrite Hfits.
    destruct (Z.gtb_spec (numAmps w) (2 ^ measureQubit)); [|lia].
    reflexivity.
  - intros w HS Hskip. rewrite Hfits, Hskip.
    destruct (Z.gtb_spec (numAmps w) (2 ^ measureQubit)); [lia|].
    reflexivity.
  - intros w Hskip. rewrite Hfits.
    destruct (Z.gtb_spec (numAmps w) (2 ^ measureQubit)) as [Hgt|Hle].
    + exfalso. apply Hskip. apply no_skip_when_block_fits; lia.
    + unfold truthy.
      destruct (Z.eqb_spec
                  (isChunkToSkipInFindPZero (chunkId w) (numAmps w)
                     measureQubit) 0); [contradiction|reflexivity].
  - eexists. rewrite findProbabilityOfOutcome_run, Hrange.
    split; reflexivity.
  - eexists. rewrite findProbabilityOfOutcome_run, Hrange.
    split; reflexivity.
Qed.

Lemma findProbabilityOfOutcome_Returned (measureQubit outcome : Z)
    (multiQubit : MultiQubit) (p : REAL) (w : Worker) :
  exec (findProbabilityOfOutcome peers measureQubit outcome) multiQubit
    = Returned p w ->
  inRange measureQubit multiQubit = true /\
  w = afterReduction multiQubit measureQubit.
Proof.
  rewrite findProbabilityOfOutcome_run.
  destruct (inRange measureQubit multiQubit); [|discriminate].
  intros H. injection H as _ <-. split; reflexivity.
Qed.

(** C4. Whenever [findProbabilityOfOutcome] returns a probability [p] for
    the qubit and the outcome, [collapseToOutcome] ends in the fatal error
    8 if and only if [p] is not greater than [REAL_EPS]; it has no other
    fatal end, and at that end no call that can write the arrays has been
    made: the handle, both arrays included, is as it was before the
    call. *)
Theorem collapse_fails_iff_probability_within_tolerance
    (multiQubit : MultiQubit) (measureQubit outcome : Z) (p : REAL)
    (w : Worker) :
  exec (findProbabilityOfOutcome peers measureQubit outcome) multiQubit
    = Returned p w ->
  ((exists w',
      exec (collapseToOutcome peers measureQubit outcome) multiQubit
        = Aborted 8 w') <->
   rgtb p REAL_EPS = false) /\
  (forall errorCode w',
     exec (collapseToOutcome peers measureQubit outcome) multiQubit
       = Aborted errorCode w' ->
     errorCode = 8 /\ handle w' = multiQubit /\
     forall c, In c (trace w') -> writesArrays c = false).
Proof.
  intros Hfind. rewrite collapseToOutcome_run, Hfind.
  apply findProbabilityOfOutcome_Returned in Hfind.
  destruct Hfind as [_ ->].
  destruct (rgtb p REAL_EPS).
  - split.
    + split; [intros [w' H]; discriminate|discriminate].
    + intros errorCode w' H. discriminate.
  - split.
    + split; [reflexivity|]. intros _. eexists. reflexivity.
    + intros errorCode w' H. injection H as <- <-.
      split; [reflexivity|]. split; [reflexivity|].
      intros c Hin. cbn in Hin.
      repeat (destruct Hin as [<-|Hin]; [reflexivity|]).
      destruct Hin.
Qed.

(** C10. For a measured qubit in range, [findProbabilityOfOutcome]
    returns a probability [p] on the handle as it is before the collapse;
    when [p] exceeds the tolerance, [collapseToOutcome] returns that very
    [p].  Its calls are those of the reduction, none of which can write
    the arrays, followed by one collapse kernel, applied to the handle as
    it was.  This holds for every outcome value, 0 and 1 among them. *)
Theorem collapse_returns_precollapse_probability
    (multiQubit : MultiQubit) (measureQubit outcome : Z) :
  0 <= measureQubit < numQubits multiQubit ->
  exists p w,
    exec (findProbabilityOfOutcome peers measureQubit outcome) multiQubit
      = Returned p w /\
    handle w = multiQubit /\
    (forall c, In c (trace w) -> writesArrays c = false) /\
    (rgtb p REAL_EPS = true ->
     exists w',
       exec (collapseToOutcome peers measureQubit outcome) multiQubit
         = Returned p w' /\
       trace w' =
         trace w ++ [collapseKernel multiQubit measureQubit outcome p] /\
       handle w' =
         afterCall (collapseKernel multiQubit measureQubit outcome p)
           multiQubit).
Proof.
  intros Hq.
  assert (Hrange : inRange measureQubit multiQubit = true)
    by (unfold inRange; lia).
  pose proof (findProbabilityOfOutcome_run measureQubit outcome multiQubit)
    as Hfind.
  rewrite Hrange in Hfind.
  eexists. eexists. split; [exact Hfind|].
  split; [reflexivity|]. split.
  - intros c [<-|[]]. reflexivity.
  - intros Hp. rewrite collapseToOutcome_run, Hfind, Hp.
    eexists. split; [reflexivity|]. split; reflexivity.
Qed.

End MeasurementFacts.

(** ** The execution environment *)

(** C9. [initQuESTEnv] always returns.  On a transport that is not yet
    initialized it initializes it, stores this worker's rank and the
    number of workers in the environment, and prints nothing.  On a
    transport that is already initialized it prints the warning and
    changes neither the transport nor the environment. *)
Theorem initQuESTEnv_initializes_once (mpi : Env.MPIRuntime)
    (env : Env.QuESTEnv) :
  exists mpi' env' printed,
    Env.initQuESTEnv mpi env = (mpi', env', printed) /\
    (Env.initialized mpi = false ->
     Env.initialized mpi' = true /\
     Env.comm_rank mpi' = Env.comm_rank mpi /\
     Env.comm_size mpi' = Env.comm_size mpi /\
     Env.rank env' = Env.comm_rank mpi /\
     Env.numRanks env' = Env.comm_size mpi /\
     printed = []) /\
    (Env.initialized mpi = true ->
     mpi' = mpi /\ env' = env /\ printed = [doubleInitWarning]).
Proof.
  unfold Env.initQuESTEnv, Env.MPI_Initialized.
  rewrite truthy_of_bool.
  destruct (Env.initialized mpi); cbn [negb].
  - do 3 eexists. split; [reflexivity|].
    split; [discriminate|]. intros _. repeat split.
  - do 3 eexists. split; [reflexivity|].
    split; [|discriminate]. intros _. repeat split.
Qed.

(** * Worked instances *)

Example upperShard_is_upper : chunkIsUpper 0 2 1 = 1.
Proof. reflexivity. Qed.

Example lowerShard_is_lower : chunkIsUpper 1 2 1 = 0.
Proof. reflexivity. Qed.

Example lowerShard_pairs_with_upper : getChunkPairId 0 1 2 1 = 0.
Proof. reflexivity. Qed.

Example hadamard_on_lower_shard :
  exec (hadamard 1) lowerShard =
  Returned tt
    (afterCalls
       [ transfer RealPart 0 2 0 100; transfer ImagPart 0 2 0 100;
         hadamardDistributed 1 PairStateVec StateVec StateVec 0 ]
       (fresh lowerShard)).
Proof. vm_compute. reflexivity. Qed.

Example target_out_of_range_aborts :
  exec (sigmaX 2) upperShard =
  Aborted 1 (afterError 1 "sigmaX" (fresh upperShard)).
Proof. vm_compute. reflexivity. Qed.

Lemma skip_flag_is_lower_half_witness :
  isChunkToSkipInFindPZero 6 4 3 <> 0 <-> chunkIsUpper 6 4 3 = 0.
Proof.
  apply (skip_flag_is_lower_half 6 4 3 2).
  - split; [discriminate|reflexivity].
  - reflexivity.
  - split; discriminate.
  - discriminate.
  - reflexivity.
Defined.

Lemma distributed_kernel_coefficients_witness :
  exists w',
    exec (compactUnitary 1 alpha0 beta0) upperShard = Returned tt w' /\
    trace w' =
      [ transfer RealPart 0 2 1 100; transfer ImagPart 0 2 1 100;
        compactUnitaryDistributed 1 alpha0
          {| real := (-0.5)%float; imag := (-0.5)%float |}
          StateVec PairStateVec StateVec ].
Proof.
  assert (H1 : numQubits upperShard <= 63) by discriminate.
  assert (H2 : numAmps upperShard <= 2 ^ 1) by discriminate.
  eexists. split; [vm_compute; reflexivity|].
  apply (proj1 (proj2 (proj2
           (distributed_kernel_coefficients upperShard 1 H1 H2)))
           alpha0 beta0).
  vm_compute. reflexivity.
Defined.

Lemma sigmaX_controlledNot_read_pair_buffer_witness :
  exists w',
    exec (controlledNot 0 1) lowerShard = Returned tt w' /\
    trace w' =
      [ transfer RealPart 0 2 0 100; transfer ImagPart 0 2 0 100;
        controlledNotDistributed 0 1 PairStateVec StateVec ].
Proof.
  assert (H1 : numQubits lowerShard <= 63) by discriminate.
  assert (H2 : numAmps lowerShard <= 2 ^ 1) by discriminate.
  eexists. split; [vm_compute; reflexivity|].
  apply (proj2 (sigmaX_controlledNot_read_pair_buffer lowerShard 1 H1 H2)
           0).
  vm_compute. reflexivity.
Defined.

Lemma phaseGate_never_exchanges_witness :
  exec (phaseGate 1 1) upperShard = Returned tt (fresh upperShard) /\
  (forall w',
     exec (phaseGate 1 1) upperShard = Returned tt w' ->
     trace w' = [] /\ handle w' = upperShard).
Proof.
  assert (H1 : numQubits upperShard <= 63) by discriminate.
  split; [reflexivity|].
  intros w' Hrun.
  apply (proj2 (phaseGate_never_exchanges upperShard 1 1 H1) w' Hrun);
    discriminate.
Defined.

Lemma exchange_covers_shard_witness :
  exists w',
    exec (exchangeStateVectors 1) largeShard = Returned tt w' /\
    trace w' =
      [ transfer RealPart 0 (2 ^ 28) 1 100;
        transfer ImagPart 0 (2 ^ 28) 1 100;
        transfer RealPart (2 ^ 28) (2 ^ 28) 1 100;
        transfer ImagPart (2 ^ 28) (2 ^ 28) 1 100;
        transfer RealPart (2 * 2 ^ 28) (2 ^ 28) 1 100;
        transfer ImagPart (2 * 2 ^ 28) (2 ^ 28) 1 100;
        transfer RealPart (3 * 2 ^ 28) (2 ^ 28) 1 100;
        transfer ImagPart (3 * 2 ^ 28) (2 ^ 28) 1 100 ].
Proof.
  assert (H1 : 0 <= 30 <= 57) by (split; discriminate).
  assert (H2 : numAmps largeShard = 2 ^ 30) by reflexivity.
  destruct (exchange_covers_shard largeShard 1 30 H1 H2)
    as [_ [_ [w' [Hrun [Htrace _]]]]].
  exists w'. split; [exact Hrun|]. exact Htrace.
Defined.

Lemma dispatch_local_iff_block_fits_witness :
  takesLocalPath Hadamard 0
    (afterCalls [hadamardLocal 0] (fresh upperShard)) /\
  takesExchangePath Hadamard 1 lowerShard
    (afterCalls
       [ transfer RealPart 0 2 0 100; transfer ImagPart 0 2 0 100;
         hadamardDistributed 1 PairStateVec StateVec StateVec 0 ]
       (fresh lowerShard)).
Proof.
  split.
  - assert (H1 : numQubits upperShard <= 63) by discriminate.
    assert (H2 : exec (applyGate Hadamard 0) upperShard =
                 Returned tt
                   (afterCalls [hadamardLocal 0] (fresh upperShard)))
      by (vm_compute; reflexivity).
    apply (dispatch_local_iff_block_fits Hadamard 0 upperShard _ H1 H2).
    reflexivity.
  - assert (H1 : numQubits lowerShard <= 63) by discriminate.
    assert (H2 : exec (applyGate Hadamard 1) lowerShard =
                 Returned tt
                   (afterCalls
                      [ transfer RealPart 0 2 0 100;
                        transfer ImagPart 0 2 0 100;
                        hadamardDistributed 1
                          PairStateVec StateVec StateVec 0 ]
                      (fresh lowerShard)))
      by (vm_compute; reflexivity).
    apply (dispatch_local_iff_block_fits Hadamard 1 lowerShard _ H1 H2).
    discriminate.
Defined.

(** The dispatch rule as stated fails for [phaseGate]: on the upper shard,
    with the target qubit 1 beyond the shard, the gate returns without
    any call, so without the exchange and the distributed kernel that the
    rule demands there. *)
Lemma phaseGate_breaks_dispatch_rule :
  ~ dispatchRule (PhaseGate 1) 1 upperShard.
Proof.
  intros Hrule.
  destruct (Hrule (fresh upperShard) eq_refl) as [_ [_ Hdist]].
  destruct Hdist as [k [Htrace _]].
  - intros Hgt. discriminate Hgt.
  - cbn [trace fresh] in Htrace.
    symmetry in Htrace. apply app_eq_nil in Htrace.
    destruct Htrace as [_ Hk]. discriminate Hk.
Qed.

Lemma findProbabilityOfOutcome_reduces_contributions_witness :
  exists w',
    exec (findProbabilityOfOutcome [lowerShard] 1 1) upperShard
      = Returned 0.5%float w' /\
    handle w' = upperShard.
Proof.
  assert (H1 : 0 <= 1 < numQubits upperShard)
    by (split; [discriminate|reflexivity]).
  assert (H2 : numQubits upperShard <= 63) by discriminate.
  destruct (findProbabilityOfOutcome_reduces_contributions
              [lowerShard] upperShard 1 H1 H2)
    as [_ [_ [_ [_ [w' [Hrun Hhandle]]]]]].
  exists w'. split; [exact Hrun|exact Hhandle].
Defined.

Lemma collapse_fails_iff_probability_within_tolerance_witness :
  exists w',
    exec (collapseToOutcome [basisShard 1] 1 1) (basisShard 0)
      = Aborted 8 w' /\
    handle w' = basisShard 0.
Proof.
  assert (Hfind :
    exec (findProbabilityOfOutcome [basisShard 1] 1 1) (basisShard 0)
    = Returned zero (afterReduction (basisShard 0) 1))
    by (vm_compute; reflexivity).
  destruct (collapse_fails_iff_probability_within_tolerance
              [basisShard 1] (basisShard 0) 1 1 zero _ Hfind)
    as [Hiff Hframe].
  destruct (proj2 Hiff eq_refl) as [w' Hrun].
  exists w'. split; [exact Hrun|].
  exact (proj1 (proj2 (Hframe 8 w' Hrun))).
Defined.

Lemma collapse_returns_precollapse_probability_witness :
  exists w',
    exec (collapseToOutcome [lowerShard] 1 0) upperShard
      = Returned 0.5%float w' /\
    trace w' =
      [ MPI_Allreduce 0.5%float;
        collapseToOutcomeDistributedRenorm 1 0.5%float ].
Proof.
  assert (H1 : 0 <= 1 < numQubits upperShard)
    by (split; [discriminate|reflexivity]).
  destruct (collapse_returns_precollapse_probability
              [lowerShard] upperShard 1 0 H1)
    as [p [w [Hfind [_ [_ Hcollapse]]]]].
  assert (Hcomputed :
    exec (findProbabilityOfOutcome [lowerShard] 1 0) upperShard
    = Returned 0.5%float (afterReduction upperShard 1))
    by (vm_compute; reflexivity).
  rewrite Hcomputed in Hfind. injection Hfind as <- <-.
  destruct (Hcollapse eq_refl) as [w' [Hrun [Htrace _]]].
  exists w'. split; [exact Hrun|]. exact Htrace.
Defined.

(** * Further properties of the index arithmetic *)

Lemma lt_pow2_bits (x n : Z) :
  0 <= x -> 0 <= n ->
  (x < 2 ^ n <-> forall m, n <= m -> Z.testbit x m = false).
Proof.
  intros Hx Hn. split.
  - intros Hlt m Hm. destruct (Z.eq_dec x 0) as [->|Hne].
    + apply Z.bits_0.
    + apply Z.bits_above_log2; [lia|].
      assert (Z.log2 x < n) by (apply Z.log2_lt_pow2; lia). lia.
  - intros Hbits. destruct (Z.eq_dec x 0) as [->|Hne].
    + apply pow2_pos. lia.
    + destruct (Z_lt_le_dec x (2 ^ n)) as [Hlt|Hge]; [exact Hlt|].
      exfalso.
      assert (n <= Z.log2 x) as Hlog by (apply Z.log2_le_pow2; lia).
      specialize (Hbits (Z.log2 x) Hlog).
      rewrite Z.bit_log2 in Hbits by lia. discriminate.
Qed.

Lemma lxor_lt_pow2 (a b n : Z) :
  0 <= a < 2 ^ n -> 0 <= b < 2 ^ n -> 0 <= n ->
  0 <= Z.lxor a b < 2 ^ n.
Proof.
  intros Ha Hb Hn.
  assert (0 <= Z.lxor a b) as Hnn by (apply Z.lxor_nonneg; lia).
  split; [exact Hnn|].
  apply lt_pow2_bits; [exact Hnn|exact Hn|].
  intros m Hm. rewrite Z.lxor_spec.
  rewrite (proj1 (lt_pow2_bits a n ltac:(lia) Hn) ltac:(lia) m Hm).
  rewrite (proj1 (lt_pow2_bits b n ltac:(lia) Hn) ltac:(lia) m Hm).
  reflexivity.
Qed.

(** Flipping bit [k] adds [2^k] when the bit is clear and subtracts it
    when the bit is set. *)
Lemma lxor_pow2_clear (a k : Z) :
  0 <= k -> Z.testbit a k = false -> Z.lxor a (2 ^ k) = a + 2 ^ k.
Proof.
  intros Hk Hbit. symmetry. apply Z.add_nocarry_lxor.
  destruct (Z.eq_dec (Z.land a (2 ^ k)) 0) as [E|Hne]; [exact E|].
  apply land_pow2_testbit in Hne; [congruence|exact Hk].
Qed.

Lemma lxor_pow2_set (a k : Z) :
  0 <= k -> Z.testbit a k = true -> Z.lxor a (2 ^ k) = a - 2 ^ k.
Proof.
  intros Hk Hbit.
  assert (Z.testbit (Z.lxor a (2 ^ k)) k = false) as Hclear.
  { rewrite Z.lxor_spec, Hbit, Z.pow2_bits_true by lia. reflexivity. }
  pose proof (lxor_pow2_clear _ k Hk Hclear) as Hadd.
  rewrite Z.lxor_assoc, Z.lxor_nilpotent, Z.lxor_0_r in Hadd. lia.
Qed.

Lemma testbit_low_part (c s j q : Z) :
  0 <= q < s -> 0 <= j < 2 ^ s ->
  Z.testbit (c * 2 ^ s + j) q = Z.testbit j q.
Proof.
  intros Hq Hj.
  rewrite <- (Z.mod_pow2_bits_low (c * 2 ^ s + j) s q) by lia.
  f_equal. rewrite Z.add_comm, Z.mod_add by lia.
  apply Z.mod_small. exact Hj.
Qed.

Lemma chunkIsUpper_bit (c s q : Z) :
  0 <= c -> 0 <= s <= q -> q <= 62 -> c * 2 ^ s < 2 ^ 63 ->
  chunkIsUpper c (2 ^ s) q = of_bool (negb (Z.testbit c (q - s))).
Proof.
  intros Hc Hs Hq Hcs.
  pose proof (chunkIsUpper_mod c s q Hc Hs Hq Hcs) as Hup.
  pose proof (mod_lt_half_testbit q ltac:(lia) (c * 2 ^ s)) as Hbit.
  rewrite (testbit_shift c s q Hs) in Hbit.
  destruct (chunkIsUpper_01 c (2 ^ s) q) as [H0|H1].
  - rewrite H0. destruct (Z.testbit c (q - s)); [reflexivity|].
    exfalso. assert (chunkIsUpper c (2 ^ s) q = 1) by tauto. lia.
  - rewrite H1. apply Hup, Hbit in H1. rewrite H1. reflexivity.
Qed.

(** In a state vector cut into [2^p] shards of [2^s] amplitudes, the pair
    rank of shard [c] for a qubit [q] beyond the shard is [c] with bit
    [q - s] flipped. *)
Lemma getChunkPairId_flips_bit (c s p q : Z) :
  0 <= s -> 0 <= p <= 30 -> s + p <= 62 ->
  0 <= c < 2 ^ p -> s <= q < s + p ->
  getChunkPairId (chunkIsUpper c (2 ^ s) q) c (2 ^ s) q =
  Z.lxor c (2 ^ (q - s)).
Proof.
  intros Hs Hp Hsp Hc Hq.
  pose proof (pow2_pos s Hs) as Hps.
  pose proof (pow2_le p 30 ltac:(lia)) as Hp30.
  pose proof (pow2_pos (q - s) ltac:(lia)) as Hpk.
  pose proof (pow2_lt (q - s) p ltac:(lia)) as Hkp.
  assert (c * 2 ^ s < 2 ^ 63) as Hcs.
  { assert (c * 2 ^ s < 2 ^ p * 2 ^ s) by nia.
    rewrite <- Z.pow_add_r in * by lia.
    pose proof (pow2_le (p + s) 62 ltac:(lia)). lia. }
  rewrite chunkIsUpper_bit by lia.
  unfold getChunkPairId. rewrite shl1_pow2 by lia.
  rewrite quot_pow2 by lia. rewrite (to_int_small (2 ^ (q - s))) by lia.
  rewrite truthy_of_bool.
  pose proof (lxor_lt_pow2 c (2 ^ (q - s)) p Hc ltac:(lia) ltac:(lia))
    as Hx.
  destruct (Z.testbit c (q - s)) eqn:Hbit; cbn [negb].
  - rewrite lxor_pow2_set in * by (assumption || lia).
    apply to_int_small. lia.
  - rewrite lxor_pow2_clear in * by (assumption || lia).
    apply to_int_small. lia.
Qed.

(** The pairing of shards is a perfect matching: the pair rank of a shard
    is another shard of the state vector, it lies in the other half of
    the block, and its own pair rank is the shard one started from. *)
Theorem pair_rank_is_an_involution (c s p q : Z) :
  0 <= s -> 0 <= p <= 30 -> s + p <= 62 ->
  0 <= c < 2 ^ p -> s <= q < s + p ->
  let S := 2 ^ s in
  let up := chunkIsUpper c S q in
  let pairRank := getChunkPairId up c S q in
  0 <= pairRank < 2 ^ p /\
  pairRank <> c /\
  chunkIsUpper pairRank S q = 1 - up /\
  getChunkPairId (chunkIsUpper pairRank S q) pairRank S q = c.
Proof.
  intros Hs Hp Hsp Hc Hq S up pairRank.
  pose proof (pow2_pos (q - s) ltac:(lia)) as Hpk.
  pose proof (pow2_lt (q - s) p ltac:(lia)) as Hkp.
  assert (pairRank = Z.lxor c (2 ^ (q - s))) as E
    by (apply (getChunkPairId_flips_bit c s p q); assumption).
  pose proof (lxor_lt_pow2 c (2 ^ (q - s)) p Hc ltac:(lia) ltac:(lia))
    as Hx.
  rewrite <- E in Hx.
  assert (Hbound : forall d, 0 <= d < 2 ^ p -> d * 2 ^ s < 2 ^ 63).
  { intros d Hd. pose proof (pow2_pos s Hs).
    assert (d * 2 ^ s < 2 ^ p * 2 ^ s) by nia.
    rewrite <- Z.pow_add_r in * by lia.
    pose proof (pow2_le (p + s) 62 ltac:(lia)). lia. }
  assert (Z.testbit pairRank (q - s) = negb (Z.testbit c (q - s))) as Hflip.
  { rewrite E, Z.lxor_spec, Z.pow2_bits_true by lia.
    destruct (Z.testbit c (q - s)); reflexivity. }
  split; [exact Hx|]. split; [|split].
  - intros Heq. rewrite Heq in Hflip.
    destruct (Z.testbit c (q - s)); discriminate.
  - unfold up, S.
    rewrite !chunkIsUpper_bit by (try apply Hbound; lia).
    rewrite Hflip. destruct (Z.testbit c (q - s)); reflexivity.
  - unfold S.
    rewrite (getChunkPairId_flips_bit pairRank s p q) by assumption.
    rewrite E, Z.lxor_assoc, Z.lxor_nilpotent. apply Z.lxor_0_r.
Qed.

(** On the distributed path the pair buffer holds, at every offset, the
    partner of the amplitude the shard holds at that offset: the global
    index with bit [q] flipped. *)
Theorem pair_shard_holds_the_partners (c s p q : Z) :
  0 <= s -> 0 <= p <= 30 -> s + p <= 62 ->
  0 <= c < 2 ^ p -> s <= q < s + p ->
  let S := 2 ^ s in
  let pairRank := getChunkPairId (chunkIsUpper c S q) c S q in
  halfMatrixBlockFitsInChunk S q = 0 /\
  forall offset, 0 <= offset < S ->
    Z.lxor (c * S + offset) (2 ^ q) = pairRank * S + offset.
Proof.
  intros Hs Hp Hsp Hc Hq S pairRank.
  pose proof (pow2_pos s Hs) as Hps.
  pose proof (pow2_le s q ltac:(lia)) as Hsq.
  split.
  - unfold halfMatrixBlockFitsInChunk, S. rewrite shl1_pow2 by lia.
    destruct (Z.gtb_spec (2 ^ s) (2 ^ q)); [lia|reflexivity].
  - intros offset Hoff.
    assert (pairRank = Z.lxor c (2 ^ (q - s))) as E
      by (apply (getChunkPairId_flips_bit c s p q); assumption).
    assert (2 ^ (q - s) * 2 ^ s = 2 ^ q) as Hprod.
    { rewrite <- Z.pow_add_r by lia. f_equal. lia. }
    pose proof (shard_testbit c s q ltac:(lia) (c * 2 ^ s + offset)
                  ltac:(unfold S in *; lia)) as Hbit.
    rewrite E. unfold S in *.
    destruct (Z.testbit c (q - s)) eqn:Hc'.
    + rewrite !lxor_pow2_set by (assumption || lia). lia.
    + rewrite !lxor_pow2_clear by (assumption || lia). lia.
Qed.

(** On the local path a shard is closed under the pairing: the partner of
    every amplitude of the shard, the index with bit [q] flipped, is in
    the same shard. *)
Theorem local_path_keeps_partners_in_shard (c s q : Z) :
  0 <= s <= 62 -> 0 <= q <= 62 ->
  halfMatrixBlockFitsInChunk (2 ^ s) q = 1 ->
  forall i, c * 2 ^ s <= i < (c + 1) * 2 ^ s ->
    c * 2 ^ s <= Z.lxor i (2 ^ q) < (c + 1) * 2 ^ s.
Proof.
  intros Hs Hq Hfits i Hi.
  unfold halfMatrixBlockFitsInChunk in Hfits.
  rewrite shl1_pow2 in Hfits by lia.
  destruct (Z.gtb_spec (2 ^ s) (2 ^ q)) as [Hgt|]; [|discriminate].
  assert (q < s) as Hqs.
  { destruct (Z_lt_le_dec q s) as [H|H]; [exact H|].
    pose proof (pow2_le s q ltac:(lia)). lia. }
  pose proof (pow2_pos q ltac:(lia)) as Hpq.
  set (j := i - c * 2 ^ s).
  assert (0 <= j < 2 ^ s) as Hj by (unfold j; lia).
  replace i with (c * 2 ^ s + j) by (unfold j; lia).
  pose proof (testbit_low_part c s j q ltac:(lia) Hj) as Hlow.
  pose proof (lxor_lt_pow2 j (2 ^ q) s Hj ltac:(lia) ltac:(lia)) as Hx.
  destruct (Z.testbit j q) eqn:Hbit.
  - rewrite lxor_pow2_set by (assumption || lia).
    rewrite lxor_pow2_set in Hx by (assumption || lia). lia.
  - rewrite lxor_pow2_clear by (assumption || lia).
    rewrite lxor_pow2_clear in Hx by (assumption || lia). lia.
Qed.

(** * Further properties of the gates *)

Section GateOutcomes.

Context {prec : Precision} {collab : Collaborators}.

Lemma outcomeOf_Aborted (checks : list (bool * Z)) (func : string)
    (calls : list Call) (multiQubit : MultiQubit) (errorCode : Z)
    (w' : Worker) :
  outcomeOf checks func calls multiQubit = Aborted errorCode w' ->
  firstFailure checks = Some errorCode /\
  w' = afterError errorCode func (fresh multiQubit).
Proof.
  unfold outcomeOf. destruct (firstFailure checks); [|discriminate].
  intros H. injection H as <- <-. split; reflexivity.
Qed.

Lemma exchange_buffersAsDesigned (numAmps pairRank : Z) (c : Call) :
  In c (exchangeCalls numAmps pairRank) -> buffersAsDesigned c = true.
Proof.
  unfold exchangeCalls. rewrite in_flat_map.
  intros [i [_ [<-|[<-|[]]]]]; cbn; apply Z.eqb_refl.
Qed.

Lemma dispatch_buffersAsDesigned (multiQubit : MultiQubit) (rotQubit : Z)
    (localKernel : Call) (distributedKernel : Z -> Call) (c : Call) :
  buffersAsDesigned localKernel = true ->
  (forall up, buffersAsDesigned (distributedKernel up) = true) ->
  In c (dispatchCalls multiQubit rotQubit localKernel distributedKernel) ->
  buffersAsDesigned c = true.
Proof.
  intros HL HD. unfold dispatchCalls.
  destruct (truthy (halfMatrixBlockFitsInChunk _ _)).
  - intros [<-|[]]. exact HL.
  - intros Hin. apply in_app_or in Hin. destruct Hin as [Hin|[<-|[]]].
    + apply exchange_buffersAsDesigned in Hin. exact Hin.
    + apply HD.
Qed.

Ltac first_failure_cases :=
  intros ? ?;
  cbn [firstFailure] in *;
  repeat match goal with
         | H : context [if ?b then _ else _] |- _ => destruct b
         end;
  match goal with
  | H : _ = Some _ |- _ =>
      first [discriminate H | injection H as <-; lia]
  end.

Ltac kernel_buffers :=
  intros c Hin;
  apply dispatch_buffersAsDesigned in Hin; [exact Hin|reflexivity|];
  intros up; unfold upperBuffer, lowerBuffer;
  destruct (truthy up); reflexivity.

(** Every gate checks its target first, then makes checks with codes 2
    to 6, then makes calls that use the buffers as designed. *)
Lemma gate_normal_form (g : Gate) (rotQubit : Z)
    (multiQubit : MultiQubit) :
  exists rest calls,
    exec (applyGate g rotQubit) multiQubit =
    outcomeOf ((inRange rotQubit multiQubit, 1) :: rest) (gateName g)
      calls multiQubit /\
    (forall errorCode,
       firstFailure rest = Some errorCode -> 2 <= errorCode <= 6) /\
    (forall c, In c calls -> buffersAsDesigned c = true).
Proof.
  destruct g; cbn [applyGate gateName]; do 2 eexists.
  - split; [apply compactUnitary_run|].
    split; [first_failure_cases|kernel_buffers].
  - split; [apply unitary_run|].
    split; [first_failure_cases|kernel_buffers].
  - split; [apply controlledCompactUnitary_run|].
    split; [first_failure_cases|kernel_buffers].
  - split; [apply controlledUnitary_run|].
    split; [first_failure_cases|kernel_buffers].
  - split; [apply multiControlledUnitary_run|].
    split; [first_failure_cases|kernel_buffers].
  - split; [apply sigmaX_run|].
    split; [first_failure_cases|kernel_buffers].
  - split; [apply sigmaY_run|].
    split; [first_failure_cases|kernel_buffers].
  - split; [apply controlledNot_run|].
    split; [first_failure_cases|kernel_buffers].
  - split; [apply phaseGate_run|].
    split; [first_failure_cases|].
    intros c. unfold phaseGateCalls.
    destruct (truthy (halfMatrixBlockFitsInChunk _ _));
      [|destruct (negb _)]; cbn; intuition (subst; reflexivity).
  - split; [apply hadamard_run|].
    split; [first_failure_cases|kernel_buffers].
Qed.

(** A gate whose validation fails has touched nothing: the handle is as
    it was, and the only calls made are the four lines of the error
    report and the abort.  The error code lies between 1 and 6, and it is
    1 exactly when the target qubit is out of range, whatever else is
    wrong with the arguments. *)
Theorem failed_gate_touches_nothing (g : Gate) (rotQubit : Z)
    (multiQubit : MultiQubit) (errorCode : Z) (w' : Worker) :
  exec (applyGate g rotQubit) multiQubit = Aborted errorCode w' ->
  handle w' = multiQubit /\
  trace w' = errorReport errorCode (gateName g) /\
  1 <= errorCode <= 6 /\
  (errorCode = 1 <->
   ~ (0 <= rotQubit < numQubits multiQubit)).
Proof.
  intros Hrun.
  destruct (gate_normal_form g rotQubit multiQubit)
    as [rest [calls [Hform [Hcodes _]]]].
  rewrite Hform in Hrun. apply outcomeOf_Aborted in Hrun.
  destruct Hrun as [Hfail ->].
  split; [reflexivity|]. split; [reflexivity|].
  unfold inRange in Hfail. cbn [firstFailure] in Hfail.
  destruct ((rotQubit >=? 0) && (rotQubit <? numQubits multiQubit))
    eqn:Hrange.
  - apply Hcodes in Hfail. split; [lia|]. split; [lia|].
    intros Hout. exfalso. apply Hout. lia.
  - injection Hfail as <-. split; [lia|]. split; [lia|].
    intros _. lia.
Qed.


End GateOutcomes.

Section GatePaths.

Context {prec : Precision} {collab : Collaborators}.

Lemma returned_gate_in_range (g : Gate) (rotQubit : Z)
    (multiQubit : MultiQubit) (w' : Worker) :
  exec (applyGate g rotQubit) multiQubit = Returned tt w' ->
  0 <= rotQubit < numQubits multiQubit.
Proof.
  intros Hrun.
  destruct (gate_normal_form g rotQubit multiQubit)
    as [rest [calls [Hform _]]].
  rewrite Hform in Hrun. apply outcomeOf_Returned in Hrun.
  destruct Hrun as [Hchecks _].
  apply firstFailure_head in Hchecks. destruct Hchecks as [Hrange _].
  apply inRange_bounds. exact Hrange.
Qed.

Lemma local_path_when_block_fits (g : Gate) (rotQubit : Z)
    (multiQubit : MultiQubit) (w' : Worker) :
  numQubits multiQubit <= 63 ->
  exec (applyGate g rotQubit) multiQubit = Returned tt w' ->
  numAmps multiQubit > 2 ^ rotQubit ->
  takesLocalPath g rotQubit w'.
Proof.
  intros HN Hrun HS.
  assert (Hphase : (exists type, g = PhaseGate type) \/
                   (forall type, g <> PhaseGate type)).
  { destruct g; try (right; intros; discriminate). left. eauto. }
  destruct Hphase as [[type ->]|Hphase].
  - cbn [applyGate] in Hrun. rewrite phaseGate_run in Hrun.
    apply returned_dispatch in Hrun; [|exact HN].
    destruct Hrun as [Hq [Htrace _]].
    unfold takesLocalPath. rewrite Htrace.
    unfold phaseGateCalls. rewrite blockFits_gt by lia.
    destruct (Z.gtb_spec (numAmps multiQubit) (2 ^ rotQubit)); [|lia].
    eexists. split; reflexivity.
  - destruct (gates_follow_template g rotQubit multiQubit w' HN Hphase Hrun)
      as [_ [_ [Hloc _]]].
    apply Hloc. exact HS.
Qed.

(** On a single worker, which holds all [2^N] amplitudes, no gate ever
    communicates: a gate that passes its validation calls its local
    kernel and nothing else. *)
Theorem single_worker_never_exchanges (g : Gate) (rotQubit : Z)
    (multiQubit : MultiQubit) (w' : Worker) :
  numQubits multiQubit <= 62 ->
  numAmps multiQubit = 2 ^ numQubits multiQubit ->
  exec (applyGate g rotQubit) multiQubit = Returned tt w' ->
  takesLocalPath g rotQubit w' /\
  forall c, In c (trace w') -> isExchange c = false.
Proof.
  intros HN HS Hrun.
  pose proof (returned_gate_in_range g rotQubit multiQubit w' Hrun) as Hq.
  pose proof (pow2_lt rotQubit (numQubits multiQubit) ltac:(lia)) as Hlt.
  assert (takesLocalPath g rotQubit w') as Hloc.
  { apply (local_path_when_block_fits g rotQubit multiQubit);
      [lia|exact Hrun|lia]. }
  split; [exact Hloc|].
  destruct Hloc as [k [Htrace Hk]]. rewrite Htrace.
  intros c [<-|[]]. destruct k; try reflexivity. discriminate Hk.
Qed.

(** On the distributed path [sigmaY] and [hadamard] hand the half the
    shard lies in to their kernel: the flag is the value of
    [chunkIsUpper], 0 or 1; [sigmaY] reads the pair buffer and writes the
    state vector, and [hadamard] names the state vector as the upper half
    exactly when the flag is 1. *)
Theorem sigmaY_hadamard_pass_the_half (multiQubit : MultiQubit)
    (rotQubit : Z) :
  numQubits multiQubit <= 63 ->
  numAmps multiQubit <= 2 ^ rotQubit ->
  let up :=
    chunkIsUpper (chunkId multiQubit) (numAmps multiQubit) rotQubit in
  let exchange :=
    exchangeCalls (numAmps multiQubit) (pairRankOf multiQubit rotQubit) in
  (up = 0 \/ up = 1) /\
  (forall w',
     exec (sigmaY rotQubit) multiQubit = Returned tt w' ->
     trace w' =
       exchange ++ [sigmaYDistributed rotQubit PairStateVec StateVec up]) /\
  (forall w',
     exec (hadamard rotQubit) multiQubit = Returned tt w' ->
     trace w' =
       exchange ++
       [hadamardDistributed rotQubit
          (if up =? 1 then StateVec else PairStateVec)
          (if up =? 1 then PairStateVec else StateVec)
          StateVec up]).
Proof.
  intros HN HS up exchange.
  pose proof (chunkIsUpper_01 (chunkId multiQubit) (numAmps multiQubit)
                rotQubit) as H01.
  fold up in H01. split; [exact H01|].
  unfold exchange, pairRankOf. fold up. split.
  - intros w' Hrun. rewrite sigmaY_run in Hrun.
    apply returned_dispatch in Hrun; [|exact HN].
    destruct Hrun as [Hq [Htrace _]].
    rewrite Htrace, dispatch_distributed by assumption. reflexivity.
  - intros w' Hrun. rewrite hadamard_run in Hrun.
    apply returned_dispatch in Hrun; [|exact HN].
    destruct Hrun as [Hq [Htrace _]].
    rewrite Htrace, dispatch_distributed by assumption.
    fold up. unfold upperBuffer, lowerBuffer, truthy.
    destruct H01 as [-> | ->]; reflexivity.
Qed.

End GatePaths.

(** * The control mask of [multiControlledUnitary] *)

Lemma reads_below_are_firstn (controlQubits : list Z) (k : nat) :
  (k <= List.length controlQubits)%nat ->
  map (fun i => nth i controlQubits 0) (seq 0 k) = firstn k controlQubits.
Proof.
  revert k. induction controlQubits as [|a rest IH]; intros k Hk.
  - cbn in Hk. replace k with O by lia. reflexivity.
  - destruct k as [|k]; [reflexivity|].
    cbn [seq map firstn nth]. f_equal.
    rewrite <- seq_shift, map_map. apply IH. cbn in Hk. lia.
Qed.

Lemma fold_left_of_map {A B C : Type} (f : A -> C -> A) (g : B -> C)
    (l : list B) (a : A) :
  fold_left f (map g l) a = fold_left (fun acc x => f acc (g x)) l a.
Proof.
  revert a. induction l as [|x l IH]; intros a; cbn; [reflexivity|].
  apply IH.
Qed.

Lemma fold_left_pointwise {A B : Type} (f g : A -> B -> A) (l : list B)
    (a : A) :
  (forall acc x, f acc x = g acc x) -> fold_left f l a = fold_left g l a.
Proof.
  intros Hfg. revert a. induction l as [|x l IH]; intros a; cbn;
    [reflexivity|].
  rewrite Hfg. apply IH.
Qed.

(** The mask is the fold of the first [numControlQubits] entries. *)
Lemma controlMask_fold (controlQubits : list Z) (numControlQubits : Z) :
  0 <= numControlQubits <= Z.of_nat (List.length controlQubits) ->
  controlMask controlQubits numControlQubits =
  fold_left (fun mask qubit => Z.lor mask (shl1 qubit))
    (firstn (Z.to_nat numControlQubits) controlQubits) 0.
Proof.
  intros Hn. unfold controlMask, upto.
  rewrite <- (reads_below_are_firstn controlQubits
                (Z.to_nat numControlQubits)) by lia.
  rewrite !fold_left_of_map.
  apply fold_left_pointwise. intros mask i. rewrite Nat2Z.id. reflexivity.
Qed.

Lemma fold_lor_bits (qubits : list Z) (acc b : Z) :
  (forall x, In x qubits -> 0 <= x <= 62) -> 0 <= acc -> 0 <= b ->
  0 <= fold_left (fun mask qubit => Z.lor mask (shl1 qubit)) qubits acc /\
  Z.testbit
    (fold_left (fun mask qubit => Z.lor mask (shl1 qubit)) qubits acc) b =
  Z.testbit acc b || existsb (Z.eqb b) qubits.
Proof.
  revert acc. induction qubits as [|a rest IH]; intros acc Hall Hacc Hb.
  - cbn. rewrite orb_false_r. split; [exact Hacc|reflexivity].
  - cbn [fold_left existsb].
    assert (0 <= a <= 62) as Ha by (apply Hall; left; reflexivity).
    pose proof (pow2_pos a ltac:(lia)) as Hpa.
    destruct (IH (Z.lor acc (shl1 a))) as [Hnn Hbits].
    + intros x Hx. apply Hall. right. exact Hx.
    + rewrite shl1_pow2 by lia. apply Z.lor_nonneg. lia.
    + exact Hb.
    + split; [exact Hnn|]. rewrite Hbits.
      rewrite Z.lor_spec, shl1_pow2 by lia.
      rewrite Z.pow2_bits_eqb by lia.
      rewrite (Z.eqb_sym a b). symmetry. apply orb_assoc.
Qed.

(** The bits of the mask, in the form the validation uses. *)
Lemma controlMask_bits (controlQubits : list Z)
    (numControlQubits : Z) :
  0 <= numControlQubits <= Z.of_nat (List.length controlQubits) ->
  (forall x,
     In x (firstn (Z.to_nat numControlQubits) controlQubits) ->
     0 <= x <= 62) ->
  0 <= controlMask controlQubits numControlQubits /\
  forall b, 0 <= b ->
    (Z.testbit (controlMask controlQubits numControlQubits) b = true <->
     In b (firstn (Z.to_nat numControlQubits) controlQubits)).
Proof.
  intros Hn Hall. rewrite controlMask_fold by exact Hn. split.
  - apply (fold_lor_bits _ 0 0 Hall); lia.
  - intros b Hb.
    rewrite (proj2 (fold_lor_bits _ 0 b Hall ltac:(lia) Hb)).
    rewrite Z.bits_0, orb_false_l, existsb_exists. split.
    + intros [x [Hin Hx]]. apply Z.eqb_eq in Hx. subst x. exact Hin.
    + intros Hin. exists b. split; [exact Hin|apply Z.eqb_refl].
Qed.

(** The mask of [multiControlledUnitary] has exactly the bits of the
    control qubits set, repeated or not; it is never negative, and it is
    zero when there is no control qubit.  The control qubits read lie
    between 0 and 62, where [1LL << qubit] is defined. *)
Theorem controlMask_sets_the_control_bits (controlQubits : list Z)
    (numControlQubits : Z) :
  0 <= numControlQubits <= Z.of_nat (List.length controlQubits) ->
  (forall x,
     In x (firstn (Z.to_nat numControlQubits) controlQubits) ->
     0 <= x <= 62) ->
  0 <= controlMask controlQubits numControlQubits /\
  (numControlQubits = 0 -> controlMask controlQubits numControlQubits = 0) /\
  forall b, 0 <= b ->
    (Z.testbit (controlMask controlQubits numControlQubits) b = true <->
     In b (firstn (Z.to_nat numControlQubits) controlQubits)).
Proof.
  intros Hn Hall.
  destruct (controlMask_bits controlQubits
              numControlQubits Hn Hall) as [Hnn Hbits].
  split; [exact Hnn|]. split; [|exact Hbits].
  intros ->. reflexivity.
Qed.

Section ControlValidation.

Context {prec : Precision} {collab : Collaborators}.





End ControlValidation.

(** * Further properties of the measurement *)

Section CollapseFacts.

Context {prec : Precision} {collab : Collaborators}.

Variable peers : list MultiQubit.

Lemma skip_flag_truthy (c s q : Z) :
  0 <= c < 2 ^ 31 -> 0 <= s <= q -> q <= 62 ->
  truthy (isChunkToSkipInFindPZero c (2 ^ s) q) = Z.testbit c (q - s).
Proof.
  intros Hc Hs Hq.
  pose proof (isChunkToSkip_testbit c s q Hc Hs Hq) as Hskip.
  unfold truthy.
  destruct (Z.eqb_spec (isChunkToSkipInFindPZero c (2 ^ s) q) 0) as [E|E];
    cbn [negb].
  - destruct (Z.testbit c (q - s)); [|reflexivity].
    exfalso. apply (proj2 Hskip eq_refl). exact E.
  - symmetry. apply Hskip. exact E.
Qed.

(** On the distributed path every amplitude of a shard has the same
    value [b] of bit [q], and a collapse to outcome 0 or 1 that passes
    its checks renormalises the shard when [b] is the outcome and zeroes
    it when [b] is the other value; that kernel is the only call after
    the reduction. *)
Theorem collapse_renormalises_the_matching_shards
    (multiQubit : MultiQubit) (measureQubit outcome s : Z) (p : REAL)
    (w : Worker) :
  0 <= chunkId multiQubit < 2 ^ 31 ->
  numAmps multiQubit = 2 ^ s -> 0 <= s <= measureQubit ->
  measureQubit <= 62 ->
  outcome = 0 \/ outcome = 1 ->
  exec (findProbabilityOfOutcome peers measureQubit outcome) multiQubit
    = Returned p w ->
  rgtb p REAL_EPS = true ->
  let b := Z.testbit (chunkId multiQubit) (measureQubit - s) in
  (forall i,
     chunkId multiQubit * 2 ^ s <= i < (chunkId multiQubit + 1) * 2 ^ s ->
     Z.testbit i measureQubit = b) /\
  exists w',
    exec (collapseToOutcome peers measureQubit outcome) multiQubit
      = Returned p w' /\
    trace w' =
      trace w ++
      [if Bool.eqb b (outcome =? 1)
       then collapseToOutcomeDistributedRenorm measureQubit p
       else collapseToOutcomeDistributedSetZero measureQubit].
Proof.
  intros Hc HS Hs Hq Hout Hfind Hp b.
  split.
  - intros i Hi. apply (shard_testbit _ s measureQubit Hs i Hi).
  - rewrite collapseToOutcome_run, Hfind, Hp.
    eexists. split; [reflexivity|].
    cbn [trace afterCalls]. f_equal. f_equal.
    unfold collapseKernel. rewrite HS.
    rewrite blockFits_gt by lia.
    pose proof (pow2_le s measureQubit ltac:(lia)) as Hle.
    destruct (Z.gtb_spec (2 ^ s) (2 ^ measureQubit)); [lia|].
    rewrite skip_flag_truthy by lia. fold b.
    destruct b, Hout as [-> | ->]; reflexivity.
Qed.

(** The outcome is not validated.  For a value other than 0 and 1,
    [findProbabilityOfOutcome] answers as for outcome 0, and on the
    distributed path a collapse that passes its checks zeroes the shard,
    whichever half it lies in. *)
Theorem collapse_to_other_outcome_zeroes_every_shard
    (multiQubit : MultiQubit) (measureQubit outcome : Z) (p : REAL)
    (w : Worker) :
  outcome <> 0 -> outcome <> 1 ->
  measureQubit <= 62 ->
  numAmps multiQubit <= 2 ^ measureQubit ->
  exec (findProbabilityOfOutcome peers measureQubit outcome) multiQubit
    = Returned p w ->
  rgtb p REAL_EPS = true ->
  exec (findProbabilityOfOutcome peers measureQubit 0) multiQubit
    = Returned p w /\
  exists w',
    exec (collapseToOutcome peers measureQubit outcome) multiQubit
      = Returned p w' /\
    trace w' =
      trace w ++ [collapseToOutcomeDistributedSetZero measureQubit].
Proof.
  intros H0 H1 Hq HS Hfind Hp.
  assert ((outcome =? 0) = false) as E0 by lia.
  assert ((outcome =? 1) = false) as E1 by lia.
  pose proof (findProbabilityOfOutcome_Returned peers _ _ _ _ _ Hfind)
    as [Hrange _].
  apply inRange_bounds in Hrange.
  split.
  - rewrite findProbabilityOfOutcome_run in *.
    destruct (inRange measureQubit multiQubit); [|discriminate].
    rewrite E1 in Hfind. exact Hfind.
  - rewrite collapseToOutcome_run, Hfind, Hp.
    eexists. split; [reflexivity|].
    cbn [trace afterCalls]. f_equal. f_equal.
    unfold collapseKernel. rewrite blockFits_gt by lia.
    destruct (Z.gtb_spec (numAmps multiQubit) (2 ^ measureQubit)); [lia|].
    rewrite E0, E1. destruct (negb _); reflexivity.
Qed.

End CollapseFacts.

(** * The amplitude accessors *)

Lemma nth_error_flat_map_uniform {A B : Type} (f : A -> list B)
    (size : nat) (l : list A) :
  (forall r a, nth_error l r = Some a -> List.length (f a) = size) ->
  forall r j, (j < size)%nat ->
    nth_error (flat_map f l) (r * size + j) =
    match nth_error l r with
    | Some a => nth_error (f a) j
    | None => None
    end.
Proof.
  induction l as [|a rest IH]; intros Hsize r j Hj.
  - cbn. destruct r; destruct (_ + j)%nat; reflexivity.
  - cbn [flat_map].
    pose proof (Hsize O a eq_refl) as Ha.
    destruct r as [|r].
    + cbn [Nat.mul Nat.add nth_error]. apply nth_error_app1. lia.
    + rewrite nth_error_app2 by lia.
      replace (S r * size + j - List.length (f a))%nat
        with (r * size + j)%nat by lia.
      cbn [nth_error]. apply IH; [|exact Hj].
      intros r' a' Hr'. apply (Hsize (S r') a'). exact Hr'.
Qed.

Lemma length_flat_map_uniform {A B : Type} (f : A -> list B)
    (size : nat) (l : list A) :
  (forall r a, nth_error l r = Some a -> List.length (f a) = size) ->
  List.length (flat_map f l) = (List.length l * size)%nat.
Proof.
  induction l as [|a rest IH]; intros Hsize; [reflexivity|].
  cbn [flat_map]. rewrite length_app, (Hsize O a eq_refl).
  rewrite IH; [cbn; lia|].
  intros r a' Hr. apply (Hsize (S r) a'). exact Hr.
Qed.

Section AccessorFacts.

Context {prec : Precision}.

Variable peers : list MultiQubit.

Lemma caller_is_a_worker (multiQubit : MultiQubit) :
  exists r, nth_error (allWorkers peers multiQubit) r = Some multiQubit.
Proof.
  apply In_nth_error. unfold allWorkers, insertAt.
  apply in_or_app. right. left. reflexivity.
Qed.

(** One accessor on a well-formed state vector. *)
Lemma getAmpEl_reads_global (select : ComplexArray -> list REAL)
    (multiQubit : MultiQubit) (S index : Z) :
  let workers := allWorkers peers multiQubit in
  0 < S ->
  shardsOf S workers ->
  (forall r w, nth_error workers r = Some w ->
     List.length (select (stateVec w)) = Z.to_nat S) ->
  Z.of_nat (List.length workers) < 2 ^ 31 ->
  Z.of_nat (List.length workers) * S < 2 ^ 63 ->
  0 <= index < Z.of_nat (List.length workers) * S ->
  getAmpEl peers select multiQubit index =
  nth_error (globalArray select workers) (Z.to_nat index).
Proof.
  intros workers HS Hshards Hlen Hint Hll Hindex.
  set (r := index / S).
  set (j := index mod S).
  pose proof (Z.div_mod index S ltac:(lia)) as Hdm.
  pose proof (Z.mod_pos_bound index S HS) as Hj.
  fold r j in Hdm, Hj.
  assert (0 <= r < Z.of_nat (List.length workers)) as Hr.
  { split; [apply Z.div_pos; lia|].
    apply Z.div_lt_upper_bound; lia. }
  destruct (nth_error workers (Z.to_nat r)) as [owner|] eqn:Howner.
  2:{ apply nth_error_None in Howner. lia. }
  destruct (Hshards _ _ Howner) as [Hid [Hnum _]].
  destruct (caller_is_a_worker multiQubit) as [r0 Hcaller].
  destruct (Hshards _ _ Hcaller) as [_ [Hnum0 _]].
  assert (Hchunk : forall w, numAmps w = S ->
            getChunkIdFromIndex w index = r).
  { intros w Hw. unfold getChunkIdFromIndex. rewrite Hw.
    rewrite Z.quot_div_nonneg by lia. apply to_int_small.
    fold r. lia. }
  unfold getAmpEl. rewrite (Hchunk multiQubit Hnum0).
  change (elBeforeBcast select multiQubit index)
    with ((fun w => elBeforeBcast select w index) multiQubit).
  rewrite <- map_insertAt. fold (allWorkers peers multiQubit).
  fold workers.
  unfold MPI_Bcast. destruct (Z.ltb_spec r 0); [lia|].
  rewrite nth_error_map, Howner. cbn [option_map].
  unfold elBeforeBcast. rewrite (Hchunk owner Hnum), Hid, Hnum.
  rewrite Z2Nat.id by lia. rewrite Z.eqb_refl.
  assert (0 <= r * S <= index) by nia.
  rewrite (to_llong_small (r * S)) by nia.
  rewrite to_llong_small by lia.
  replace (index - r * S) with j by lia.
  unfold arrayAt. destruct (Z.ltb_spec j 0); [lia|].
  unfold globalArray.
  replace (Z.to_nat index)
    with (Z.to_nat r * Z.to_nat S + Z.to_nat j)%nat by nia.
  rewrite (nth_error_flat_map_uniform _ (Z.to_nat S) workers Hlen)
    by lia.
  rewrite Howner. reflexivity.
Qed.

(** On a state vector cut into equal shards, one per worker in rank
    order, [getRealAmpEl] and [getImagAmpEl] return on every worker the
    element of the whole vector at the global index, whichever worker
    holds it. *)
Theorem accessors_read_the_global_vector (multiQubit : MultiQubit)
    (S index : Z) :
  let workers := allWorkers peers multiQubit in
  0 < S ->
  shardsOf S workers ->
  Z.of_nat (List.length workers) < 2 ^ 31 ->
  Z.of_nat (List.length workers) * S < 2 ^ 63 ->
  0 <= index < Z.of_nat (List.length workers) * S ->
  getRealAmpEl peers multiQubit index =
    nth_error (globalArray reals workers) (Z.to_nat index) /\
  getImagAmpEl peers multiQubit index =
    nth_error (globalArray imags workers) (Z.to_nat index) /\
  getRealAmpEl peers multiQubit index <> None /\
  getImagAmpEl peers multiQubit index <> None.
Proof.
  intros workers HS Hshards Hint Hll Hindex.
  assert (Hre : getRealAmpEl peers multiQubit index =
                nth_error (globalArray reals workers) (Z.to_nat index)).
  { apply (getAmpEl_reads_global reals multiQubit S index);
      try assumption.
    intros r w Hw. apply (Hshards r w Hw). }
  assert (Him : getImagAmpEl peers multiQubit index =
                nth_error (globalArray imags workers) (Z.to_nat index)).
  { apply (getAmpEl_reads_global imags multiQubit S index);
      try assumption.
    intros r w Hw. apply (Hshards r w Hw). }
  assert (Hsize : forall select,
            (forall r w, nth_error workers r = Some w ->
               List.length (select (stateVec w)) = Z.to_nat S) ->
            (Z.to_nat index <
             List.length (globalArray select workers))%nat).
  { intros select Hlen. unfold globalArray.
    rewrite (length_flat_map_uniform _ (Z.to_nat S) workers Hlen).
    apply Nat2Z.inj_lt.
    rewrite Nat2Z.inj_mul, !Z2Nat.id by lia. lia. }
  split; [exact Hre|]. split; [exact Him|]. split.
  - rewrite Hre. apply nth_error_Some. apply Hsize.
    intros r w Hw. apply (Hshards r w Hw).
  - rewrite Him. apply nth_error_Some. apply Hsize.
    intros r w Hw. apply (Hshards r w Hw).
Qed.

End AccessorFacts.

(** * The total probability *)

Lemma reads_are_combine {A B : Type} (l1 : list A) (l2 : list B)
    (d1 : A) (d2 : B) (k : nat) :
  List.length l1 = k -> List.length l2 = k ->
  map (fun i => (nth i l1 d1, nth i l2 d2)) (seq 0 k) = combine l1 l2.
Proof.
  revert l2 k. induction l1 as [|a l1 IH]; intros l2 k H1 H2.
  - cbn in H1. subst k. reflexivity.
  - destruct l2 as [|b l2]; [cbn in *; lia|].
    destruct k as [|k]; [cbn in H1; lia|].
    cbn [seq map nth combine]. f_equal.
    rewrite <- seq_shift, map_map. apply IH; cbn in *; lia.
Qed.

Section TotalProbabilityFacts.

Context {prec : Precision}.

Variable peers : list MultiQubit.

(** Where subtraction undoes addition without rounding, a compensated
    addition is an addition and the compensation stays zero. *)
Hypothesis sub_zero : forall x, rsub x rzero = x.
Hypothesis add_sub_cancel :
  forall p y, rsub (rsub (radd p y) p) y = rzero.

Lemma kahanAdd_exact (pTotal term : REAL) :
  kahanAdd (pTotal, rzero) term = (radd pTotal term, rzero).
Proof.
  unfold kahanAdd. rewrite sub_zero, add_sub_cancel. reflexivity.
Qed.

Lemma kahan_loop_exact (multiQubit : MultiQubit) (indices : list Z)
    (pTotal : REAL) :
  fold_left
    (fun state index =>
       let re := nth (Z.to_nat index) (reals (stateVec multiQubit)) rzero in
       let im := nth (Z.to_nat index) (imags (stateVec multiQubit)) rzero in
       kahanAdd (kahanAdd state (rmul re re)) (rmul im im))
    indices (pTotal, rzero) =
  (fold_left
     (fun total amp =>
        radd (radd total (rmul (fst amp) (fst amp)))
             (rmul (snd amp) (snd amp)))
     (map (fun index =>
             (nth (Z.to_nat index) (reals (stateVec multiQubit)) rzero,
              nth (Z.to_nat index) (imags (stateVec multiQubit)) rzero))
        indices)
     pTotal,
   rzero).
Proof.
  revert pTotal. induction indices as [|i rest IH]; intros pTotal;
    [reflexivity|].
  cbn [fold_left map]. cbv zeta. rewrite !kahanAdd_exact. apply IH.
Qed.

(** In exact arithmetic the compensated sum of [calcTotalProbability] is
    the plain sum of [re^2 + im^2] over the shard; a single chunk
    returns it without any reduction, and several chunks return the sum
    of the totals of all the workers. *)
Theorem calcTotalProbability_is_the_plain_sum (multiQubit : MultiQubit) :
  0 <= numAmps multiQubit ->
  List.length (reals (stateVec multiQubit))
    = Z.to_nat (numAmps multiQubit) ->
  List.length (imags (stateVec multiQubit))
    = Z.to_nat (numAmps multiQubit) ->
  let shardTotal :=
    plainTotalProbability
      (combine (reals (stateVec multiQubit))
               (imags (stateVec multiQubit))) in
  rankTotalProbability multiQubit = shardTotal /\
  (numChunks multiQubit <= 1 ->
   calcTotalProbability peers multiQubit = shardTotal) /\
  (numChunks multiQubit > 1 ->
   calcTotalProbability peers multiQubit =
   MPI_SUM (map rankTotalProbability (allWorkers peers multiQubit))).
Proof.
  intros Hn Hre Him shardTotal.
  assert (rankTotalProbability multiQubit = shardTotal) as Hrank.
  { unfold rankTotalProbability, shardTotal, plainTotalProbability.
    cbv zeta. rewrite kahan_loop_exact. cbn [fst]. f_equal.
    unfold upto. rewrite map_map.
    rewrite <- (reads_are_combine _ _ rzero rzero
                  (Z.to_nat (numAmps multiQubit)) Hre Him).
    apply map_ext. intros i. rewrite Nat2Z.id. reflexivity. }
  split; [exact Hrank|]. split.
  - intros Hone. unfold calcTotalProbability. cbv zeta.
    destruct (Z.gtb_spec (numChunks multiQubit) 1); [lia|exact Hrank].
  - intros Hmany. unfold calcTotalProbability, MPI_Allreduce_SUM,
      allWorkers. cbv zeta.
    destruct (Z.gtb_spec (numChunks multiQubit) 1); [|lia].
    rewrite map_insertAt. reflexivity.
Qed.

End TotalProbabilityFacts.

(** * The two sides of an exchange *)

Section ExchangeHandshake.

Context {prec : Precision}.

Lemma transfer_in_exchange (component : Component)
    (offset count tag numAmps pairRank : Z) :
  In (transfer component offset count pairRank tag)
     (exchangeCalls numAmps pairRank) <->
  exists i,
    In i (upto (to_int (Z.quot numAmps (maxMessageCountFor numAmps)))) /\
    offset = to_llong (i * maxMessageCountFor numAmps) /\
    count = to_int (maxMessageCountFor numAmps) /\
    tag = TAG.
Proof.
  unfold exchangeCalls. rewrite in_flat_map. split.
  - intros [i [Hi Hc]]. exists i. split; [exact Hi|].
    destruct Hc as [Hc|[Hc|[]]]; unfold transfer in Hc;
      injection Hc; intros; subst; repeat split; reflexivity.
  - intros [i [Hi [-> [-> ->]]]]. exists i. split; [exact Hi|].
    destruct component; cbn; auto.
Qed.

(** Two workers that are each other's pair make matching transfers: to
    every send-receive that one addresses to the other corresponds a
    send-receive of the other, addressed back, of the same component, at
    the same offset, with the same count and tag.  In a state vector cut
    into [2^p] shards of [2^s] amplitudes, the pair of a worker's pair
    rank is that worker, so this is the case in every gate. *)
Theorem exchanges_of_a_pair_match (mine theirs : MultiQubit)
    (s p rotQubit : Z) :
  0 <= s -> 0 <= p <= 30 -> s + p <= 62 ->
  s <= rotQubit < s + p ->
  numAmps mine = 2 ^ s -> numAmps theirs = 2 ^ s ->
  0 <= chunkId mine < 2 ^ p ->
  chunkId theirs = pairRankOf mine rotQubit ->
  pairRankOf theirs rotQubit = chunkId mine /\
  forall component offset count tag,
    In (transfer component offset count (chunkId theirs) tag)
       (exchangeCalls (numAmps mine) (pairRankOf mine rotQubit)) <->
    In (transfer component offset count (chunkId mine) tag)
       (exchangeCalls (numAmps theirs) (pairRankOf theirs rotQubit)).
Proof.
  intros Hs Hp Hsp Hq Hmine Htheirs Hc Hpair.
  pose proof (pow2_pos (rotQubit - s) ltac:(lia)) as Hpk.
  pose proof (pow2_lt (rotQubit - s) p ltac:(lia)) as Hkp.
  assert (pairRankOf mine rotQubit
          = Z.lxor (chunkId mine) (2 ^ (rotQubit - s))) as Eme.
  { unfold pairRankOf. rewrite Hmine.
    apply (getChunkPairId_flips_bit _ s p rotQubit); assumption. }
  pose proof (lxor_lt_pow2 (chunkId mine) (2 ^ (rotQubit - s)) p Hc
                ltac:(lia) ltac:(lia)) as Hrange.
  assert (pairRankOf theirs rotQubit = chunkId mine) as Eback.
  { unfold pairRankOf. rewrite Htheirs, Hpair, Eme.
    rewrite (getChunkPairId_flips_bit _ s p rotQubit) by assumption.
    rewrite Z.lxor_assoc, Z.lxor_nilpotent. apply Z.lxor_0_r. }
  split; [exact Eback|].
  intros component offset count tag.
  rewrite Eback, <- Hpair, Hmine, Htheirs.
  rewrite !transfer_in_exchange. reflexivity.
Qed.

End ExchangeHandshake.

(** * Closing the environment *)

(** [closeQuESTEnv] finalizes the transport once: after a call the
    transport is finalized, a call on a transport that is not yet
    finalized prints nothing, and a further call leaves the transport as
    it is and prints the error line. *)
Theorem closeQuESTEnv_finalizes_once (transport : Shutdown.Transport)
    (env : Env.QuESTEnv) :
  exists closed printed,
    Shutdown.closeQuESTEnv transport env = (closed, printed) /\
    Shutdown.finalized closed = true /\
    (Shutdown.finalized transport = false -> printed = []) /\
    Shutdown.closeQuESTEnv closed env =
      (closed,
       [Env.print_text
          "ERROR: Trying to close QuESTEnv multiple times. Ignoring\n"]).
Proof.
  unfold Shutdown.closeQuESTEnv at 1. unfold Shutdown.MPI_Finalized.
  rewrite truthy_of_bool.
  destruct (Shutdown.finalized transport) eqn:Hfin; cbn [negb].
  - do 2 eexists. split; [reflexivity|]. split; [exact Hfin|].
    split; [discriminate|].
    unfold Shutdown.closeQuESTEnv, Shutdown.MPI_Finalized.
    rewrite Hfin. reflexivity.
  - do 2 eexists. split; [reflexivity|]. split; [reflexivity|].
    split; reflexivity.
Qed.

(** * Worked instances of the further properties *)

Example compensation_recovers_small_terms :
  let big := 0x1p27%float in
  let shard :=
    {| stateVec :=
         {| reals := [big; 1; 1; 1; 1]%float;
            imags := [0; 0; 0; 0; 0]%float |};
       pairStateVec := {| reals := []; imags := [] |};
       numQubits := 3; numAmps := 5; chunkId := 0; numChunks := 1 |} in
  rankTotalProbability shard = (0x1p54 + 4)%float /\
  plainTotalProbability
    (combine (reals (stateVec shard)) (imags (stateVec shard)))
  = 0x1p54%float.
Proof. vm_compute. split; reflexivity. Qed.

Lemma pair_rank_is_an_involution_witness :
  getChunkPairId (chunkIsUpper 5 4 4) 5 4 4 = 1 /\
  getChunkPairId (chunkIsUpper 1 4 4) 1 4 4 = 5.
Proof.
  assert (H : 0 <= 2 /\ 0 <= 3 <= 30 /\ 2 + 3 <= 62 /\
              0 <= 5 < 2 ^ 3 /\ 2 <= 4 < 2 + 3)
    by (repeat split; discriminate || reflexivity).
  destruct H as [H1 [H2 [H3 [H4 H5]]]].
  split; [reflexivity|].
  exact (proj2 (proj2 (proj2
           (pair_rank_is_an_involution 5 2 3 4 H1 H2 H3 H4 H5)))).
Defined.

Lemma pair_shard_holds_the_partners_witness :
  Z.lxor (5 * 4 + 3) (2 ^ 4) = 1 * 4 + 3.
Proof.
  assert (H : 0 <= 2 /\ 0 <= 3 <= 30 /\ 2 + 3 <= 62 /\
              0 <= 5 < 2 ^ 3 /\ 2 <= 4 < 2 + 3)
    by (repeat split; discriminate || reflexivity).
  destruct H as [H1 [H2 [H3 [H4 H5]]]].
  apply (proj2 (pair_shard_holds_the_partners 5 2 3 4 H1 H2 H3 H4 H5) 3).
  split; [discriminate|reflexivity].
Defined.

Lemma local_path_keeps_partners_in_shard_witness :
  3 * 2 ^ 3 <= Z.lxor 29 (2 ^ 2) < (3 + 1) * 2 ^ 3.
Proof.
  apply (local_path_keeps_partners_in_shard 3 3 2).
  - split; discriminate.
  - split; discriminate.
  - reflexivity.
  - split; [discriminate|reflexivity].
Defined.

Lemma failed_gate_touches_nothing_witness :
  exists w',
    exec (applyGate (ControlledNot 1) 2) upperShard = Aborted 1 w' /\
    handle w' = upperShard.
Proof.
  eexists. split; [vm_compute; reflexivity|].
  eapply (proj1 (failed_gate_touches_nothing (ControlledNot 1) 2
                   upperShard 1 _ _)).
  Unshelve. vm_compute. reflexivity.
Defined.


Lemma single_worker_never_exchanges_witness :
  takesLocalPath (Unitary pauliX) 1
    (afterCalls [unitaryLocal 1 pauliX] (fresh wholeRegister)).
Proof.
  assert (H1 : numQubits wholeRegister <= 62) by discriminate.
  assert (H2 : numAmps wholeRegister = 2 ^ numQubits wholeRegister)
    by reflexivity.
  assert (H3 : exec (applyGate (Unitary pauliX) 1) wholeRegister =
               Returned tt
                 (afterCalls [unitaryLocal 1 pauliX] (fresh wholeRegister)))
    by (vm_compute; reflexivity).
  exact (proj1 (single_worker_never_exchanges (Unitary pauliX) 1
                  wholeRegister _ H1 H2 H3)).
Defined.

Lemma sigmaY_hadamard_pass_the_half_witness :
  exists w',
    exec (sigmaY 1) upperShard = Returned tt w' /\
    trace w' =
      [ transfer RealPart 0 2 1 100; transfer ImagPart 0 2 1 100;
        sigmaYDistributed 1 PairStateVec StateVec 1 ].
Proof.
  assert (H1 : numQubits upperShard <= 63) by discriminate.
  assert (H2 : numAmps upperShard <= 2 ^ 1) by discriminate.
  eexists. split; [vm_compute; reflexivity|].
  apply (proj1 (proj2 (sigmaY_hadamard_pass_the_half upperShard 1 H1 H2))).
  vm_compute. reflexivity.
Defined.

Lemma controlMask_sets_the_control_bits_witness :
  Z.testbit (controlMask [0; 2; 2] 3) 2 = true /\
  controlMask [0; 2; 2] 3 = 5.
Proof.
  split; [|reflexivity].
  assert (H1 : 0 <= 3 <= Z.of_nat (List.length [0; 2; 2]))
    by (split; discriminate).
  assert (H2 : forall x, In x (firstn (Z.to_nat 3) [0; 2; 2]) ->
                         0 <= x <= 62).
  { intros x [<-|[<-|[<-|[]]]]; split; discriminate. }
  apply (proj2 (proj2 (controlMask_sets_the_control_bits [0; 2; 2] 3
                         H1 H2)) 2); [discriminate|].
  right. left. reflexivity.
Defined.


Lemma collapse_renormalises_the_matching_shards_witness :
  exists w',
    exec (collapseToOutcome [upperShard] 1 1) lowerShard
      = Returned 0.5%float w' /\
    trace w' =
      [ MPI_Allreduce 0%float;
        collapseToOutcomeDistributedRenorm 1 0.5%float ].
Proof.
  assert (Hfind :
    exec (findProbabilityOfOutcome [upperShard] 1 1) lowerShard
    = Returned 0.5%float (afterReduction lowerShard 1))
    by (vm_compute; reflexivity).
  assert (H1 : 0 <= chunkId lowerShard < 2 ^ 31)
    by (split; [discriminate|reflexivity]).
  assert (H2 : numAmps lowerShard = 2 ^ 1) by reflexivity.
  assert (H3 : 0 <= 1 <= 1) by (split; discriminate).
  assert (H4 : 1 <= 62) by discriminate.
  destruct (proj2 (collapse_renormalises_the_matching_shards
                     [upperShard] lowerShard 1 1 1 0.5%float _
                     H1 H2 H3 H4 (or_intror eq_refl) Hfind eq_refl))
    as [w' [Hrun Htrace]].
  exists w'. split; [exact Hrun|exact Htrace].
Defined.

Lemma collapse_to_other_outcome_zeroes_every_shard_witness :
  exists w',
    exec (collapseToOutcome [lowerShard] 1 2) upperShard
      = Returned 0.5%float w' /\
    trace w' =
      [ MPI_Allreduce 0.5%float; collapseToOutcomeDistributedSetZero 1 ].
Proof.
  assert (Hfind :
    exec (findProbabilityOfOutcome [lowerShard] 1 2) upperShard
    = Returned 0.5%float (afterReduction upperShard 1))
    by (vm_compute; reflexivity).
  assert (H0 : 2 <> 0) by discriminate.
  assert (H1 : 2 <> 1) by discriminate.
  assert (H2 : 1 <= 62) by discriminate.
  assert (H3 : numAmps upperShard <= 2 ^ 1) by discriminate.
  destruct (proj2 (collapse_to_other_outcome_zeroes_every_shard
                     [lowerShard] upperShard 1 2 0.5%float _
                     H0 H1 H2 H3 Hfind eq_refl))
    as [w' [Hrun Htrace]].
  exists w'. split; [exact Hrun|exact Htrace].
Defined.

Lemma accessors_read_the_global_vector_witness :
  getRealAmpEl [basisShard 0] (basisShard 1) 0 = Some 1%float /\
  getImagAmpEl [basisShard 0] (basisShard 1) 3 = Some 0%float.
Proof.
  assert (Hshards :
    shardsOf 2 (allWorkers [basisShard 0] (basisShard 1))).
  { intros r w Hw. destruct r as [|[|r]]; cbn in Hw.
    - injection Hw as <-. repeat split.
    - injection Hw as <-. repeat split.
    - destruct r; discriminate Hw. }
  assert (H1 : 0 < 2) by reflexivity.
  assert (H2 : Z.of_nat
                 (List.length (allWorkers [basisShard 0] (basisShard 1)))
               < 2 ^ 31) by reflexivity.
  assert (H3 : Z.of_nat
                 (List.length (allWorkers [basisShard 0] (basisShard 1)))
               * 2 < 2 ^ 63) by reflexivity.
  split.
  - rewrite (proj1 (accessors_read_the_global_vector
                      [basisShard 0] (basisShard 1) 2 0 H1 Hshards H2 H3
                      ltac:(split; [discriminate|reflexivity]))).
    reflexivity.
  - rewrite (proj1 (proj2 (accessors_read_the_global_vector
                      [basisShard 0] (basisShard 1) 2 3 H1 Hshards H2 H3
                      ltac:(split; [discriminate|reflexivity])))).
    reflexivity.
Defined.

Lemma calcTotalProbability_is_the_plain_sum_witness :
  @calcTotalProbability integer_precision [] integerShard = 25.
Proof.
  assert (H1 : forall x : Z, x - 0 = x) by (intros; apply Z.sub_0_r).
  assert (H2 : forall p y : Z, p + y - p - y = 0) by (intros; lia).
  rewrite (proj1 (proj2 (@calcTotalProbability_is_the_plain_sum
                           integer_precision [] H1 H2 integerShard
                           ltac:(discriminate) eq_refl eq_refl)));
    [reflexivity|discriminate].
Defined.

Lemma exchanges_of_a_pair_match_witness :
  pairRankOf lowerShard 1 = chunkId upperShard /\
  In (transfer RealPart 0 2 (chunkId upperShard) 100)
     (exchangeCalls (numAmps lowerShard) (pairRankOf lowerShard 1)).
Proof.
  assert (H : 0 <= 1 /\ 0 <= 1 <= 30 /\ 1 + 1 <= 62 /\ 1 <= 1 < 1 + 1)
    by (repeat split; discriminate || reflexivity).
  destruct H as [H1 [H2 [H3 H4]]].
  destruct (exchanges_of_a_pair_match upperShard lowerShard 1 1 1
              H1 H2 H3 H4 eq_refl eq_refl
              ltac:(split; [discriminate|reflexivity]) eq_refl)
    as [Hback Hmatch].
  split; [exact Hback|].
  apply (Hmatch RealPart 0 2 100). vm_compute. left. reflexivity.
Defined.
